(** * A store with listeners and a selector-bound hook (src/index.ts)

    The development embeds the [create] function of [src/index.ts]: the
    closure variables [state] and [listeners], the four store operations
    [getState], [setState], [subscribe], [destroy], the listener that
    [useStore] registers on mount, and the body of [useStore] with its two
    layout effects, over the cells React keeps for a component instance.

    JavaScript objects live in a heap of immutable-by-default cells and are
    named by references, so that reference identity is visible.  The
    listener registry is the [Set] of ECMA-262: a list of entries in
    insertion order in which a deleted entry is replaced by an empty
    marker, and [forEach] walks that list by index while it may grow.
    Callbacks (listeners, actions stored in the state, the initializer) are
    programs over the store's interface; their calls are interpreted by a
    fuel-indexed evaluator because a listener may call back into
    [setState] without bound. *)

From Stdlib Require Import ZArith.
From stdpp Require Import base option list strings gmap.

Abbreviation Ref := nat (only parsing).
Abbreviation FunId := nat (only parsing).
Abbreviation HookId := nat (only parsing).

(** ** Values, objects, exceptions *)

(** Numbers are the integers a counter goes through; functions and objects
    are references, compared by identity. *)
Inductive Value : Type :=
| VUndef
| VNum (n : Z)
| VStr (s : string)
| VFun (f : FunId)
| VRef (r : Ref).

#[global] Instance Value_eq_dec : EqDecision Value.
Proof. solve_decision. Defined.

(** [State extends Record<string, any>]: a mapping from string keys. *)
Abbreviation Obj := (gmap string Value) (only parsing).

Inductive Exn : Type :=
| ReferenceError
| TypeError
| Thrown (payload : Value).

#[global] Instance Exn_eq_dec : EqDecision Exn.
Proof. solve_decision. Defined.

(** [PartialState<T> = Partial<T> | ((state: T) => Partial<T>)].  An updater
    is a function of the state it is given; it returns the delta or
    throws, and does not itself call into the store. *)
Inductive PartialState : Type :=
| Delta (delta : Obj)
| Updater (f : Obj → Exn + Obj).

(** ** Callbacks as programs over the store interface *)

Inductive Prog : Type :=
| Done
| Raise (e : Exn)
| GetState (k : Ref → Prog)
| ReadObj (r : Ref) (k : Obj → Prog)
| SetState (partialState : PartialState) (k : Prog)
| Subscribe (listener : FunId) (k : Prog)
| Unsubscribe (listener : FunId) (k : Prog)
| Destroy (k : Prog)
| Call (f : FunId) (arg : Value) (k : Prog).

(** What a selector hands back: a value that already exists (a primitive,
    or a reference reachable from the state), a newly allocated object
    literal, or an exception. *)
Inductive Selected : Type :=
| Existing (v : Value)
| Fresh (o : Obj)
| SelectorThrows (e : Exn).

Abbreviation Selector := (Ref → Obj → Selected) (only parsing).

(** The cells one mounted [useStore] instance keeps across renders:
    [selectStateRef.current], [stateSliceRef.current], and the slices
    handed to [dispatch] (most recent first). *)
Record Hook : Type := mkHook {
  selectStateRef : Selector;
  stateSliceRef : Value;
  dispatched : list Value
}.

(** A function object is either user code or the listener closure that
    [useStore] passes to [subscribe] (lines 88-94) for hook instance [h]. *)
Inductive Fn : Type :=
| UserFn (body : Value → Prog)
| HookListener (h : HookId).

(** ** Observable events (most recent first in the trace) *)

Inductive Event : Type :=
| Initialised (r : Ref)
| Merged (delta : Obj) (r : Ref)
| Reset (r : Ref)
| Notified (by_call : Ref) (listener : FunId) (seen : Ref)
| Subscribed (listener : FunId)
| Unsubscribed (listener : FunId)
| Cleared.

#[global] Instance Event_eq_dec : EqDecision Event.
Proof. solve_decision. Defined.

(** ** The world: heap, the closure variables of [create], hook cells *)

Record World : Type := mkWorld {
  heap : list (gmap string Value);
  state : option Ref;
  listeners : list (option FunId);
  hooks : gmap nat Hook;
  trace : list Event
}.

Inductive Outcome : Type :=
| Returned (w : World)
| Threw (e : Exn) (w : World)
| OutOfFuel.

Definition andThen (o : Outcome) (k : World → Outcome) : Outcome :=
  match o with
  | Returned w => k w
  | Threw e w => Threw e w
  | OutOfFuel => OutOfFuel
  end.

Definition with_heap (hp : list (gmap string Value)) (w : World) : World :=
  mkWorld hp (state w) (listeners w) (hooks w) (trace w).

Definition with_state (s : option Ref) (w : World) : World :=
  mkWorld (heap w) s (listeners w) (hooks w) (trace w).

Definition with_listeners (ls : list (option FunId)) (w : World) : World :=
  mkWorld (heap w) (state w) ls (hooks w) (trace w).

Definition with_hooks (hs : gmap nat Hook) (w : World) : World :=
  mkWorld (heap w) (state w) (listeners w) hs (trace w).

Definition log (e : Event) (w : World) : World :=
  mkWorld (heap w) (state w) (listeners w) (hooks w) (e :: trace w).

(** An object literal: a new cell at the end of the heap. *)
Definition alloc (o : gmap string Value) (w : World) : Ref * World :=
  (length (heap w), with_heap (heap w ++ [o]) w).

(** Reading through a reference. *)
Definition deref (w : World) (r : Ref) : gmap string Value :=
  default ∅ (heap w !! r).

(** [Object.assign(target, ...sources)]: own properties of each source are
    copied onto the target, later sources overriding earlier ones. *)
Definition Object_assign (target : gmap string Value)
    (sources : list (gmap string Value)) : gmap string Value :=
  foldl (λ acc src, src ∪ acc) target sources.

(** ** The listener [Set] *)

(** [Set] as ECMA-262 defines it: [[SetData]] is a list of entries in
    insertion order; [add] appends a value that is not an element,
    [delete] and [clear] replace entries by the empty marker (here
    [None]), and [forEach] visits the entries by increasing index until
    the index reaches the current number of entries.  So a value deleted
    before it is visited is not visited, a value added during the
    iteration is visited, and a value deleted after its visit and added
    again is visited again. *)

Definition has (l : FunId) (ls : list (option FunId)) : bool :=
  bool_decide (Some l ∈ ls).

(** [Set.prototype.add]: appended unless already an element. *)
Definition Set_add (l : FunId) (ls : list (option FunId)) : list (option FunId) :=
  if has l ls then ls else ls ++ [Some l].

(** [Set.prototype.delete]: the entry is replaced by the empty marker. *)
Definition Set_delete (l : FunId) (ls : list (option FunId)) : list (option FunId) :=
  (λ e, if decide (e = Some l) then None else e) <$> ls.

(** [Set.prototype.clear]: every entry is replaced by the empty marker. *)
Definition Set_clear (ls : list (option FunId)) : list (option FunId) :=
  (λ _, None) <$> ls.

(** ** Store operations that do not call back *)

(** [getState = () => state]; reading a [let] binding before its
    initialisation throws. *)
Definition getState (w : World) : Exn + Ref :=
  match state w with
  | None => inl ReferenceError
  | Some r => inr r
  end.

(** [subscribe] (line 45) and the function it returns (line 47). *)
Definition subscribe (l : FunId) (w : World) : World :=
  log (Subscribed l) (with_listeners (Set_add l (listeners w)) w).

Definition unsubscribe (l : FunId) (w : World) : World :=
  log (Unsubscribed l) (with_listeners (Set_delete l (listeners w)) w).

(** [destroy] (lines 51-54): [listeners.clear()], then [state = {}]; the
    assignment to an uninitialised binding throws. *)
Definition destroy (w : World) : Outcome :=
  let w1 := log Cleared (with_listeners (Set_clear (listeners w)) w) in
  let '(r, w2) := alloc ∅ w1 in
  match state w2 with
  | None => Threw ReferenceError w2
  | Some _ => Returned (log (Reset r) (with_state (Some r) w2))
  end.

(** The typeof test of line 37. *)
Definition resolve (partialState : PartialState) (current : gmap string Value)
    : Exn + gmap string Value :=
  match partialState with
  | Delta delta => inr delta
  | Updater f => f current
  end.

(** Lines 34-38: the arguments of [Object.assign] are evaluated left to
    right (the fresh [{}], then [state], then the partial), the target is
    filled, and [state] is rebound to it.  The result is the reference
    of the new state, or the exception and the world it left. *)
Definition update (partialState : PartialState) (w : World)
    : Exn * World + Ref * World :=
  let '(target, w1) := alloc ∅ w in
  match state w1 with
  | None => inl (ReferenceError, w1)
  | Some r =>
      match resolve partialState (deref w1 r) with
      | inl e => inl (e, w1)
      | inr delta =>
          let merged := Object_assign ∅ [deref w1 r; delta] in
          let w2 := with_heap (<[target := merged]> (heap w1)) w1 in
          inr (target, log (Merged delta target) (with_state (Some target) w2))
      end
  end.

(** ** The hook's listener (lines 88-94) *)

(** Modelled from the spec: [shallowEqual] is imported from
    [./shallowEqual], which is not among the sources.  The spec describes
    it as the structural comparison of two mappings' own keys and values
    one level deep, without recursing into nested structures; identical
    values are equal, and anything that is not a pair of objects is
    compared by identity only. *)
Definition shallowEqual (hp : list (gmap string Value)) (a b : Value) : bool :=
  if decide (a = b) then true
  else match a, b with
       | VRef ra, VRef rb =>
           match hp !! ra, hp !! rb with
           | Some oa, Some ob => bool_decide (oa = ob)
           | _, _ => false
           end
       | _, _ => false
       end.

(** Calling a selector on the state: a fresh object literal is allocated. *)
Definition select (sel : Selector) (r : Ref) (w : World) : Exn + Value * World :=
  match sel r (deref w r) with
  | Existing v => inr (v, w)
  | Fresh o => let '(r', w1) := alloc o w in inr (VRef r', w1)
  | SelectorThrows e => inl e
  end.

(** [dispatch(selectedSlice)]: the slice is queued for the next render. *)
Definition dispatch (h : HookId) (hk : Hook) (slice : Value) (w : World) : World :=
  with_hooks (<[h := mkHook (selectStateRef hk) (stateSliceRef hk)
                        (slice :: dispatched hk)]> (hooks w)) w.

(** The closure reads the variable [state], not its argument. *)
Definition hookListener (h : HookId) (w : World) : Outcome :=
  match hooks w !! h with
  | None => Threw TypeError w
  | Some hk =>
      match state w with
      | None => Threw ReferenceError w
      | Some r =>
          match select (selectStateRef hk) r w with
          | inl e => Threw e w
          | inr (selectedSlice, w1) =>
              if shallowEqual (heap w1) (stateSliceRef hk) selectedSlice
              then Returned w1
              else Returned (dispatch h hk selectedSlice w1)
          end
      end
  end.

(** The first layout effect (lines 81-84), run after a render that used
    [selectState] and produced [stateSlice]. *)
Definition commitRefs (h : HookId) (selectState : Selector) (stateSlice : Value)
    (w : World) : World :=
  with_hooks (<[h := mkHook selectState stateSlice
                        (default [] (dispatched <$> hooks w !! h))]> (hooks w)) w.

(** ** The evaluator *)

(** The world in which the initializer starts: an empty registry (line 31)
    and [state] not yet initialised. *)
Definition world0 : World := mkWorld [] None [] ∅ [].

Section Evaluator.

(** The function objects of the program, by identity. *)
Variable funs : FunId → Fn.

Fixpoint run (fuel : nat) (p : Prog) (w : World) {struct fuel} : Outcome :=
  match fuel with
  | O => OutOfFuel
  | S n =>
      match p with
      | Done => Returned w
      | Raise e => Threw e w
      | GetState k =>
          match getState w with
          | inl e => Threw e w
          | inr r => run n (k r) w
          end
      | ReadObj r k => run n (k (deref w r)) w
      | SetState partialState k => andThen (setState n partialState w) (run n k)
      | Subscribe l k => run n k (subscribe l w)
      | Unsubscribe l k => run n k (unsubscribe l w)
      | Destroy k => andThen (destroy w) (run n k)
      | Call f arg k => andThen (call n f arg w) (run n k)
      end
  end

(** [setState] (lines 33-40). *)
with setState (fuel : nat) (partialState : PartialState) (w : World)
    {struct fuel} : Outcome :=
  match fuel with
  | O => OutOfFuel
  | S n =>
      match update partialState w with
      | inl (e, w1) => Threw e w1
      | inr (target, w1) => forEach n target 0 w1
      end
  end

(** [listeners.forEach(listener => listener(state))] (line 39), resumed at
    entry [i]; [by_call] names the [setState] call the pass belongs to
    (the reference of the state it produced) and only labels events. *)
with forEach (fuel : nat) (by_call : Ref) (i : nat) (w : World)
    {struct fuel} : Outcome :=
  match fuel with
  | O => OutOfFuel
  | S n =>
      match listeners w !! i with
      | None => Returned w
      | Some None => forEach n by_call (S i) w
      | Some (Some l) =>
          match getState w with
          | inl e => Threw e w
          | inr r =>
              andThen (call n l (VRef r) (log (Notified by_call l r) w))
                      (forEach n by_call (S i))
          end
      end
  end

(** Applying a function object to one argument. *)
with call (fuel : nat) (f : FunId) (arg : Value) (w : World)
    {struct fuel} : Outcome :=
  match fuel with
  | O => OutOfFuel
  | S n =>
      match funs f with
      | UserFn body => run n (body arg) w
      | HookListener h => hookListener h w
      end
  end.

(** [create] (lines 31 and 100): the registry exists, the binding
    [state] does not yet; the initializer runs (the store calls it makes
    are [body]), then returns the object literal [o], to which [state]
    is bound. *)
Definition create (fuel : nat) (body : Prog) (o : gmap string Value) : Outcome :=
  andThen (run fuel body world0)
    (λ w, let '(r, w1) := alloc o w in
          Returned (log (Initialised r) (with_state (Some r) w1))).

End Evaluator.

(** ** Executions as sequences of elementary effects *)

Definition world_of (o : Outcome) : option World :=
  match o with
  | Returned w => Some w
  | Threw _ w => Some w
  | OutOfFuel => None
  end.

(** The new state object of a successful [update]. *)
Definition rebind (delta : gmap string Value) (r : Ref) (w : World) : World :=
  log (Merged delta (length (heap w)))
    (with_state (Some (length (heap w)))
       (with_heap (heap w ++ [delta ∪ deref w r]) w)).

Definition reset (w : World) : World :=
  log (Reset (length (heap w)))
    (with_state (Some (length (heap w))) (with_heap (heap w ++ [∅]) w)).

Definition clear (w : World) : World :=
  log Cleared (with_listeners (Set_clear (listeners w)) w).

(** One elementary effect on the world.  [P] bounds the labels a
    notification may carry. *)
Inductive atom (P : Ref → Prop) : World → World → Prop :=
| atom_alloc w o : atom P w (alloc o w).2
| atom_rebind w r delta : state w = Some r → atom P w (rebind delta r w)
| atom_clear w : atom P w (clear w)
| atom_reset w r : state w = Some r → atom P w (reset w)
| atom_subscribe w l : atom P w (subscribe l w)
| atom_unsubscribe w l : atom P w (unsubscribe l w)
| atom_notify w c l r i :
    listeners w !! i = Some (Some l) → state w = Some r → P c →
    atom P w (log (Notified c l r) w)
| atom_dispatch w h hk slice : atom P w (dispatch h hk slice w).

Definition steps (P : Ref → Prop) : World → World → Prop := rtc (atom P).

(** Labels available to code started in [w]: references not yet allocated. *)
Definition later_than (w : World) : Ref → Prop := λ c, length (heap w) ≤ c.

Definition pass_or_later (c : Ref) (w : World) : Ref → Prop :=
  λ c', c' = c ∨ length (heap w) ≤ c'.

(** No bound on the labels. *)
Definition anything : Ref → Prop := λ _, True.

(** The events logged between two worlds of one execution. *)
Definition since (w w' : World) : list Event :=
  take (length (trace w') - length (trace w)) (trace w').

(** Well-formed worlds: the state reference is allocated and no function
    occupies two live entries of the registry. *)
Definition live_once (ls : list (option FunId)) : Prop :=
  ∀ i j l, ls !! i = Some (Some l) → ls !! j = Some (Some l) → i = j.

Record wf (w : World) : Prop := mkWf {
  wf_state : ∀ r, state w = Some r → r < length (heap w);
  wf_listeners : live_once (listeners w)
}.

(** No call of the unsubscribe function of [l] and no [destroy]. *)
Definition removal_free (l : FunId) (seg : list Event) : Prop :=
  (Unsubscribed l ∉ seg) ∧ (Cleared ∉ seg).

(** *** Counting the invocations of a listener by one pass *)

Definition notifies (c : Ref) (l : FunId) (e : Event) : bool :=
  match e with
  | Notified c' l' _ => bool_decide (c' = c) && bool_decide (l' = l)
  | _ => false
  end.

Fixpoint invocations (c : Ref) (l : FunId) (seg : list Event) : nat :=
  match seg with
  | [] => 0
  | e :: seg' => (if notifies c l e then 1 else 0) + invocations c l seg'
  end.

(** *** The state reference a listener is handed *)

(** The reference an event binds [state] to, if it does. *)
Definition rebinds (e : Event) : option Ref :=
  match e with
  | Initialised r | Merged _ r | Reset r => Some r
  | _ => None
  end.

(** The value of [state] after the events [seg] (most recent first),
    starting from [init]. *)
Fixpoint state_after (init : option Ref) (seg : list Event) : option Ref :=
  match seg with
  | [] => init
  | e :: seg' =>
      match rebinds e with
      | Some r => Some r
      | None => state_after init seg'
      end
  end.

Definition only_rebind (r : Ref) (seg : list Event) : Prop :=
  ∀ e r', e ∈ seg → rebinds e = Some r' → r' = r.

(** The events of a call during which no listener acts on the store: the
    merge that produced object [t], and notifications of that pass with
    that object. *)
Definition plain_call (delta : gmap string Value) (t : Ref) (seg : list Event) : Prop :=
  ∀ e, e ∈ seg → e = Merged delta t ∨ ∃ l, e = Notified t l t.

(** *** A function that is not registered hears nothing *)

(** In [seg] (most recent first) every notification of [l] comes after a
    [subscribe(l)]. *)
Definition quiet_until_subscribed (l : FunId) (seg : list Event) : Prop :=
  ∀ post c s pre, seg = post ++ Notified c l s :: pre → Subscribed l ∈ pre.

(** The events that take [l] out of the registry. *)
Definition removes (l : FunId) (e : Event) : Prop :=
  e = Unsubscribed l ∨ e = Cleared.

(** In [seg] (most recent first), once [l] has been removed it is not
    notified again before it is subscribed again. *)
Definition silenced_after_removal (l : FunId) (seg : list Event) : Prop :=
  ∀ post c s mid e pre,
    seg = post ++ Notified c l s :: mid ++ e :: pre → removes l e →
    Subscribed l ∈ mid.

(** *** The state as the merge of the deltas applied so far *)

(** The object [state] refers to ([{}] stands in before initialisation). *)
Definition current (w : World) : gmap string Value :=
  from_option (deref w) ∅ (state w).

(** Replaying the merges of [seg] (most recent first) onto [base], oldest
    first. *)
Fixpoint replay (base : gmap string Value) (seg : list Event) : gmap string Value :=
  match seg with
  | [] => base
  | Merged delta _ :: seg' => delta ∪ replay base seg'
  | _ :: seg' => replay base seg'
  end.

Definition no_reset (seg : list Event) : Prop := ∀ r, Reset r ∉ seg.

(** ** Listeners that only observe: [setState] returns *)

(** Programs that read the store and do nothing to it. *)
Inductive observer : Prog → Prop :=
| observer_done : observer Done
| observer_get k : (∀ r, observer (k r)) → observer (GetState k)
| observer_read r k : (∀ o, observer (k o)) → observer (ReadObj r k).

(** Every registered function is user code that only observes. *)
Definition observed_only (funs : FunId → Fn) (ls : list (option FunId)) : Prop :=
  ∀ l, has l ls = true → ∃ body, funs l = UserFn body ∧ ∀ arg, observer (body arg).

(** The shallow merge in the words of the specification: the delta's keys
    win, keys the delta does not mention are retained. *)
Definition shallow_merge (base delta : gmap string Value) : gmap string Value :=
  merge (λ d b, match d with Some v => Some v | None => b end) delta base.

(** The left-to-right merge of a sequence of partials, an updater being
    applied to the state reached so far. *)
Fixpoint merge_sequence (base : gmap string Value) (ps : list PartialState)
    : Exn + gmap string Value :=
  match ps with
  | [] => inr base
  | p :: ps' =>
      match resolve p base with
      | inl e => inl e
      | inr delta => merge_sequence (shallow_merge base delta) ps'
      end
  end.

(** A sequence of [setState] calls. *)
Fixpoint setStates (ps : list PartialState) : Prog :=
  match ps with
  | [] => Done
  | p :: ps' => SetState p (setStates ps')
  end.

(** ** Callbacks that only modify the registry *)

Fixpoint structural (p : Prog) : bool :=
  match p with
  | Done => true
  | Subscribe _ k | Unsubscribe _ k | Destroy k => structural k
  | _ => false
  end.

Definition structural_only (funs : FunId → Fn) : Prop :=
  ∀ f, ∃ body, funs f = UserFn body ∧ ∀ arg, structural (body arg) = true.

Definition never_throws (o : Outcome) : Prop :=
  match o with
  | Returned w => is_Some (state w)
  | Threw _ _ => False
  | OutOfFuel => True
  end.

(** ** Checking well-formedness of a concrete world *)

Definition wfb (w : World) : bool :=
  bool_decide (NoDup (omap id (listeners w))) &&
  match state w with
  | Some r => bool_decide (r < length (heap w))
  | None => true
  end.

#[global] Instance removal_free_dec l seg : Decision (removal_free l seg).
Proof. unfold removal_free. apply _. Defined.

(** ** The hook's queue *)

(** The slices a hook instance has handed to [dispatch] so far. *)
Definition dispatched_of (h : HookId) (w : World) : list Value :=
  default [] (dispatched <$> hooks w !! h).

(** ** Two claims as they are worded *)

(** C2 as it is worded, for one call: a listener that is registered when
    the call begins and is not removed during it is handed, on every
    invocation the call gives rise to, the state produced by the
    [setState] call whose pass invokes it. *)
Definition sees_state_of_notifying_call (funs : FunId → Fn) (fuel : nat)
    (ps : PartialState) (w : World) : Prop :=
  ∀ w', setState funs fuel ps w = Returned w' →
  ∀ l, has l (listeners w) = true → removal_free l (since w w') →
  ∀ c s, Notified c l s ∈ since w w' → s = c.

(** C4 as it is worded, for one call: no listener is invoked twice by the
    pass of the call. *)
Definition never_invoked_twice (funs : FunId → Fn) (fuel : nat)
    (ps : PartialState) (w : World) : Prop :=
  ∀ w', setState funs fuel ps w = Returned w' →
  ∀ l, invocations (length (heap w)) l (since w w') ≤ 1.

(** ** Scenarios *)


(** The updater [s => ({count: s.count + 1})].  The scenarios keep a
    number in [count]; a state without one is rejected here. *)
Definition increment (s : gmap string Value) : Exn + gmap string Value :=
  match s !! "count"%string with
  | Some (VNum n) => inr {[ "count"%string := VNum (n + 1) ]}
  | _ => inl TypeError
  end.

(** The counter store:
    [create(set => ({count: 0, inc: () => set(s => ({count: s.count + 1}))}))].
    Function 0 is [inc]; every other function does nothing. *)
Definition counter_funs (f : FunId) : Fn :=
  UserFn (λ _, match f with
               | 0 => SetState (Updater increment) Done
               | _ => Done
               end).

Definition counter_initial : gmap string Value :=
  {[ "count"%string := VNum 0; "inc"%string := VFun 0 ]}.

(** The world an evaluation returns ([world0] if it does not return). *)
Definition after (o : Outcome) : World :=
  match o with
  | Returned w => w
  | _ => world0
  end.

(** The counter store with the idle function 1 subscribed. *)
Definition counter_watched : World :=
  after (andThen (create counter_funs 1 Done counter_initial)
                 (run counter_funs 2 (Subscribe 1 Done))).

(** A listener that calls [setState] again: function 0, when it is handed
    a state with [count = 1], sets [count] to 2; every other function does
    nothing. *)
Definition reentrant_funs (f : FunId) : Fn :=
  UserFn (λ arg,
    match f, arg with
    | 0, VRef r =>
        ReadObj r (λ o,
          match o !! "count"%string with
          | Some (VNum 1) => SetState (Delta {[ "count"%string := VNum 2 ]}) Done
          | _ => Done
          end)
    | _, _ => Done
    end).

(** A store with [count = 0] on which functions 0 and 1 are subscribed, in
    that order. *)
Definition reentrant_store : World :=
  after (andThen (create reentrant_funs 1 Done {[ "count"%string := VNum 0 ]})
                 (run reentrant_funs 3 (Subscribe 0 (Subscribe 1 Done)))).

(** One update of the watched counter store and the world it returns. *)
Definition set_count_5 : PartialState := Delta {[ "count"%string := VNum 5 ]}.

Definition counter_watched_updated : World :=
  after (setState counter_funs 5 set_count_5 counter_watched).






(** A listener that removes another one and adds it back: function 1
    unsubscribes function 0, subscribes it again and unsubscribes itself;
    every other function does nothing. *)
Definition resubscribing_funs (f : FunId) : Fn :=
  UserFn (λ _, match f with
               | 1 => Unsubscribe 0 (Subscribe 0 (Unsubscribe 1 Done))
               | _ => Done
               end).

Definition resubscribing_store : World :=
  after (andThen (create resubscribing_funs 1 Done {[ "count"%string := VNum 0 ]})
                 (run resubscribing_funs 3 (Subscribe 0 (Subscribe 1 Done)))).

Definition set_count_1 : PartialState := Delta {[ "count"%string := VNum 1 ]}.

(** A listener that adds another one: function 0 subscribes function 2;
    every other function does nothing. *)
Definition adding_funs (f : FunId) : Fn :=
  UserFn (λ _, match f with
               | 0 => Subscribe 2 Done
               | _ => Done
               end).

Definition adding_store : World :=
  after (andThen (create adding_funs 1 Done {[ "count"%string := VNum 0 ]})
                 (run adding_funs 3 (Subscribe 0 (Subscribe 1 Done)))).

Definition adding_store_updated : World :=
  after (setState adding_funs 6 set_count_1 adding_store).

(** A listener that unsubscribes another one: function 0 calls the
    unsubscribe function of function 1; every other function does
    nothing. *)
Definition silencing_funs (f : FunId) : Fn :=
  UserFn (λ _, match f with
               | 0 => Unsubscribe 1 Done
               | _ => Done
               end).

Definition silencing_store : World :=
  after (andThen (create silencing_funs 1 Done {[ "count"%string := VNum 0 ]})
                 (run silencing_funs 3 (Subscribe 0 (Subscribe 1 Done)))).

Definition silencing_store_updated : World :=
  after (run silencing_funs 7 (SetState set_count_1 Done) silencing_store).


(** ** The trace of a pass over listeners that only observe *)

(** The registered functions, in registry order. *)
Definition live (ls : list (option FunId)) : list FunId := omap id ls.

(** The notifications of one pass that hands [r] to the functions [fs] in
    that order (most recent first, as in the trace). *)
Definition notices (c r : Ref) (fs : list FunId) : list Event :=
  reverse ((λ l, Notified c l r) <$> fs).

(** The world [w] after the events [evs] have been logged. *)
Definition logged (evs : list Event) (w : World) : World :=
  mkWorld (heap w) (state w) (listeners w) (hooks w) (evs ++ trace w).

(** The entries [i], ..., [j - 1] of the registry hold functions that only
    observe. *)
Definition observers_between (funs : FunId → Fn) (i j : nat)
    (ls : list (option FunId)) : Prop :=
  ∀ i' l, i ≤ i' < j → ls !! i' = Some (Some l) →
    ∃ body, funs l = UserFn body ∧ ∀ arg, observer (body arg).

(** ** Further scenarios *)

(** Functions that do nothing, and a store on which functions 2, 0 and 1
    are subscribed in that order. *)
Definition idle_funs (f : FunId) : Fn := UserFn (λ _, Done).

Definition idle_store : World :=
  after (andThen (create idle_funs 1 Done {[ "count"%string := VNum 0 ]})
                 (run idle_funs 4 (Subscribe 2 (Subscribe 0 (Subscribe 1 Done))))).

(** A listener that throws: function 1 throws the string "boom" as soon as
    it is invoked; every other function does nothing. *)
Definition throwing_funs (f : FunId) : Fn :=
  UserFn (λ _, match f with
               | 1 => Raise (Thrown (VStr "boom"))
               | _ => Done
               end).

(** A store on which functions 0, 1 and 2 are subscribed in that order. *)
Definition throwing_store : World :=
  after (andThen (create throwing_funs 1 Done {[ "count"%string := VNum 0 ]})
                 (run throwing_funs 4 (Subscribe 0 (Subscribe 1 (Subscribe 2 Done))))).



(** ** The binding hook [useStore] (lines 56-98) *)

(** The function objects that reach [useCallback] at line 67, by
    identity: [getState] itself when the component passes no selector
    (line 66), or a selector of the component. *)
Inductive SelRef : Type :=
| TheGetState
| UserSelector (i : nat).

#[global] Instance SelRef_eq_dec : EqDecision SelRef.
Proof. solve_decision. Defined.

(** What such a function returns when it is called on [state].
    [getState] (line 42) ignores its argument and returns [state], which
    is the argument at each of the three places that call the selector
    (lines 72, 75 and 90). *)
Definition selector_of (sels : nat → Selector) (s : SelRef) : Selector :=
  match s with
  | TheGetState => λ r _, Existing (VRef r)
  | UserSelector i => sels i
  end.

(** Line 66: the selector the component passes, or [getState] when it
    passes none. *)
Definition stateSelector (selector : option nat) : SelRef :=
  match selector with
  | Some i => UserSelector i
  | None => TheGetState
  end.

(** [reducer] (line 20). *)
Definition reducer (state newState : Value) : Value := newState.

(** Modelled from the spec: React is the host framework and is not among
    the sources.  These are the cells it keeps for one component instance
    between renders, for the hooks that [useStore] calls: the function
    memoized by [useCallback] with the dependency list it was memoized
    for; the identity of the function in [selectStateRef.current] (the
    function itself and [stateSliceRef.current] are the cells of [Hook]);
    the state of [useReducer] and the number of dispatched slices already
    reduced into it; the dependencies [selectState, stateSlice] of the
    first layout effect at the last commit ([None] before the first
    commit). *)
Record Fiber : Type := mkFiber {
  callbackCell : SelRef * option (list Value);
  selectStateRefIs : SelRef;
  reducerCell : Value;
  reduced : nat;
  effectDeps : option (SelRef * Value)
}.

(** Modelled from the spec: React's comparison of two dependency lists,
    entry by entry and by reference (the specification's "memoize a
    function by a dependency list", selector identity being unchanged
    when the entries are reference-equal to the previous call's). *)
Definition areHookInputsEqual (next prev : list Value) : bool :=
  forallb (λ ab, bool_decide (ab.1 = ab.2)) (zip next prev).

(** Modelled from the spec: React's [useCallback(callback, deps)].  The
    previous function is returned when both dependency lists exist and are
    equal; otherwise the new function is kept with its dependencies. *)
Definition useCallback (callback : SelRef) (deps : option (list Value))
    (cell : option (SelRef * option (list Value))) : SelRef * option (list Value) :=
  match cell, deps with
  | Some (prev, Some prevDeps), Some nextDeps =>
      if areHookInputsEqual nextDeps prevDeps then (prev, Some prevDeps)
      else (callback, deps)
  | _, _ => (callback, deps)
  end.

(** Modelled from the spec: the slices dispatched since the last render,
    oldest first, which React's [useReducer] reduces into its state at the
    next render. *)
Definition pendingSlices (fb : Fiber) (hk : Hook) : list Value :=
  reverse (take (length (dispatched hk) - reduced fb) (dispatched hk)).

(** The cells [useRef] creates at the first render, with an empty queue
    for [dispatch]. *)
Definition createRefs (h : HookId) (selectState : Selector) (stateSlice : Value)
    (w : World) : World :=
  with_hooks (<[h := mkHook selectState stateSlice []]> (hooks w)) w.

(** The body of [useStore] (lines 66-78 and 97) for hook instance [h]:
    one render.  [fiber] is [None] at the first render.  The result is the
    returned slice, the cells of the render, and the world (the selector
    may have allocated its result). *)
Definition useStore (sels : nat → Selector) (h : HookId)
    (selector : option nat) (dependencies : option (list Value))
    (fiber : option Fiber) (w : World) : Exn + (Value * Fiber * World) :=
  let cell := useCallback (stateSelector selector) dependencies (callbackCell <$> fiber) in
  let selectState := cell.1 in
  match state w with
  | None => inl ReferenceError
  | Some r =>
      match fiber with
      | None =>
          (* [useRef(selectState)]; [useReducer] initialises its state with
             [selectState(state)]; line 75 finds the selector in the
             cell; [useRef(stateSlice)] *)
          match select (selector_of sels selectState) r w with
          | inl e => inl e
          | inr (stateSlice, w1) =>
              inr (stateSlice,
                   mkFiber cell selectState stateSlice 0 None,
                   createRefs h (selector_of sels selectState) stateSlice w1)
          end
      | Some fb =>
          match hooks w !! h with
          | None => inl TypeError
          | Some hk =>
              let stateSlice := foldl reducer (reducerCell fb) (pendingSlices fb hk) in
              let fb' := mkFiber cell (selectStateRefIs fb) stateSlice
                           (length (dispatched hk)) (effectDeps fb) in
              if decide (selectState = selectStateRefIs fb)
              then inr (stateSlice, fb', w)
              else match select (selector_of sels selectState) r w with
                   | inl e => inl e
                   | inr (stateSlice', w1) => inr (stateSlice', fb', w1)
                   end
          end
      end
  end.

(** The two layout effects (lines 81-95), run by React after it has
    committed a render that returned [stateSlice] with the cells [fb].
    The first runs at the first commit and whenever its dependencies
    [selectState, stateSlice] differ from those of the previous commit;
    the second, with no dependencies, runs at the first commit only and
    subscribes the listener closure [listener]. *)
Definition layoutEffects (sels : nat → Selector) (h : HookId) (listener : FunId)
    (stateSlice : Value) (fb : Fiber) (w : World) : Fiber * World :=
  let selectState := (callbackCell fb).1 in
  let rerun :=
    match effectDeps fb with
    | Some (s, v) => negb (bool_decide (s = selectState) && bool_decide (v = stateSlice))
    | None => true
    end in
  let w1 := if rerun then commitRefs h (selector_of sels selectState) stateSlice w else w in
  let w2 := match effectDeps fb with
            | None => subscribe listener w1
            | Some _ => w1
            end in
  (mkFiber (callbackCell fb) (if rerun then selectState else selectStateRefIs fb)
     (reducerCell fb) (reduced fb) (Some (selectState, stateSlice)),
   w2).

(** A render followed by its commit; [None] when the render throws and
    React commits nothing. *)
Definition renderAndCommit (sels : nat → Selector) (h : HookId) (listener : FunId)
    (selector : option nat) (dependencies : option (list Value))
    (fiber : option Fiber) (w : World) : option (Value * Fiber * World) :=
  match useStore sels h selector dependencies fiber w with
  | inl _ => None
  | inr (stateSlice, fb, w1) =>
      let '(fb', w2) := layoutEffects sels h listener stateSlice fb w1 in
      Some (stateSlice, fb', w2)
  end.

(** The cleanup of the second layout effect, run when the component
    unmounts: the function [subscribe] returned (line 88). *)
Definition unmount (listener : FunId) (w : World) : World := unsubscribe listener w.

(** The cells of hook [h] after a commit: the listener's refs hold the
    selector the committed render used and the slice it returned, the
    first layout effect remembers them as its dependencies, and the
    reducer has consumed no more slices than were dispatched. *)
Definition in_sync (sels : nat → Selector) (h : HookId) (fb : Fiber) (w : World)
    (stateSlice : Value) : Prop :=
  ∃ hk, hooks w !! h = Some hk ∧
    selectStateRef hk = selector_of sels (callbackCell fb).1 ∧
    stateSliceRef hk = stateSlice ∧
    selectStateRefIs fb = (callbackCell fb).1 ∧
    effectDeps fb = Some ((callbackCell fb).1, stateSlice) ∧
    reduced fb ≤ length (dispatched hk).


(** What a store evaluation may do to the cells of a hook: nothing to the
    two refs, and only add slices in front of the queue of [dispatch]. *)
Definition cells_kept (w w' : World) : Prop :=
  ∀ h hk, hooks w !! h = Some hk →
    ∃ new, hooks w' !! h
           = Some (mkHook (selectStateRef hk) (stateSliceRef hk) (new ++ dispatched hk)).

(** Every registered function other than the one at entry [j] is user
    code that only observes. *)
Definition observers_except (funs : FunId → Fn) (j : nat)
    (ls : list (option FunId)) : Prop :=
  ∀ i l, i ≠ j → ls !! i = Some (Some l) →
    ∃ body, funs l = UserFn body ∧ ∀ arg, observer (body arg).

(** ** A component on a board store *)

(** A selector that reads one property of the state. *)
Definition field (key : string) (r : Ref) (s : gmap string Value) : Selected :=
  Existing (default VUndef (s !! key)).

Definition board_sels (i : nat) (r : Ref) (s : gmap string Value) : Selected :=
  match i with
  | 0 => field "count" r s
  | _ => field "name" r s
  end.

(** Function 0 is the listener of hook 0; the others do nothing. *)
Definition board_funs (f : FunId) : Fn :=
  match f with
  | 0 => HookListener 0
  | _ => UserFn (λ _, Done)
  end.

(** The initializer subscribes function 1. *)
Definition board_store : World :=
  after (create board_funs 2 (Subscribe 1 Done)
           {[ "count"%string := VNum 0; "name"%string := VStr "a" ]}).

(** The component mounts with the selector of [count] and no dependency
    list. *)
Definition board_fiber : Fiber :=
  mkFiber (UserSelector 0, None) (UserSelector 0) (VNum 0) 0
    (Some (UserSelector 0, VNum 0)).

Definition board_mounted : World :=
  match renderAndCommit board_sels 0 0 (Some 0) None None board_store with
  | Some (_, _, w) => w
  | None => world0
  end.

Definition set_count (n : Z) : PartialState := Delta {[ "count"%string := VNum n ]}.

(** Two updates of [count] before the component renders again. *)
Definition board_counted : World :=
  after (run board_funs 8 (SetState (set_count 1) (SetState (set_count 2) Done))
           board_mounted).

(** An update of [count] that is taken back before the component renders
    again. *)
Definition board_reverted : World :=
  after (run board_funs 8 (SetState (set_count 1) (SetState (set_count 0) Done))
           board_mounted).

(** The cells of the component when it mounts with the dependency list
    [[7]] instead. *)
Definition board_fiber_keyed : Fiber :=
  mkFiber (UserSelector 0, Some [VNum 7]) (UserSelector 0) (VNum 0) 0
    (Some (UserSelector 0, VNum 0)).

(** The component has rendered again after the two updates. *)
Definition board_fiber_counted : Fiber :=
  mkFiber (UserSelector 0, None) (UserSelector 0) (VNum 2) 2
    (Some (UserSelector 0, VNum 2)).

Definition board_committed : World :=
  match renderAndCommit board_sels 0 0 (Some 0) None (Some board_fiber) board_counted with
  | Some (_, _, w) => w
  | None => world0
  end.

(** The mounted component has rendered with the selector of [name]. *)
Definition board_fiber_named : Fiber :=
  mkFiber (UserSelector 1, None) (UserSelector 1) (VNum 0) 0
    (Some (UserSelector 1, VStr "a")).

Definition board_named : World :=
  match renderAndCommit board_sels 0 0 (Some 1) None (Some board_fiber) board_mounted with
  | Some (_, _, w) => w
  | None => world0
  end.

(** One update of [count] on the mounted component. *)
Definition board_bumped : World :=
  after (setState board_funs 8 (set_count 1) board_mounted).

(** * Properties of evaluations *)

(** ** Every finished evaluation is a sequence of elementary effects *)

Lemma atom_weaken (P Q : Ref → Prop) w w' :
  (∀ c, P c → Q c) → atom P w w' → atom Q w w'.
Proof. intros HPQ H. destruct H; econstructor; eauto. Qed.

Lemma steps_weaken (P Q : Ref → Prop) w w' :
  (∀ c, P c → Q c) → steps P w w' → steps Q w w'.
Proof.
  intros HPQ H. induction H as [|x y z Hxy _ IH]; [apply rtc_refl|].
  eapply rtc_l; [eapply atom_weaken; eauto | exact IH].
Qed.

Lemma atom_heap_length P w w' : atom P w w' → length (heap w) ≤ length (heap w').
Proof. destruct 1; simpl; rewrite ?length_app; simpl; lia. Qed.

Lemma steps_heap_length P w w' : steps P w w' → length (heap w) ≤ length (heap w').
Proof.
  induction 1 as [|x y z Hxy _ IH]; [lia|].
  apply atom_heap_length in Hxy. lia.
Qed.

Lemma deref_alloc o w r : r < length (heap w) → deref (alloc o w).2 r = deref w r.
Proof. intros Hr. unfold deref. simpl. by rewrite lookup_app_l. Qed.

Lemma deref_alloc_empty w r : deref (alloc ∅ w).2 r = deref w r.
Proof.
  unfold deref. simpl.
  destruct (decide (r < length (heap w))) as [Hr|Hr].
  - by rewrite lookup_app_l.
  - rewrite (lookup_ge_None_2 (heap w)) by lia. simpl.
    destruct (decide (r = length (heap w))) as [->|Hne].
    + rewrite lookup_app_r by lia. by rewrite Nat.sub_diag.
    + rewrite lookup_ge_None_2; [done|]. rewrite length_app. simpl. lia.
Qed.

Lemma Object_assign_merge (old delta : gmap string Value) :
  Object_assign ∅ [old; delta] = delta ∪ old.
Proof. unfold Object_assign. simpl. by rewrite (right_id_L ∅ (∪)). Qed.

Lemma fill_fresh (hp : list (gmap string Value)) (o : gmap string Value) :
  <[length hp := o]> (hp ++ [∅]) = hp ++ [o].
Proof.
  rewrite insert_app_r_alt by lia. by rewrite Nat.sub_diag.
Qed.

(** The three ways [update] ends. *)
Lemma update_cases partialState w :
  (state w = None ∧ update partialState w = inl (ReferenceError, (alloc ∅ w).2)) ∨
  (∃ r e, state w = Some r ∧ resolve partialState (deref w r) = inl e ∧
          update partialState w = inl (e, (alloc ∅ w).2)) ∨
  (∃ r delta, state w = Some r ∧ resolve partialState (deref w r) = inr delta ∧
          update partialState w = inr (length (heap w), rebind delta r w)).
Proof.
  unfold update. cbn [alloc with_heap state heap].
  destruct (state w) as [r|] eqn:Hs; [|by left].
  right. pose proof (deref_alloc_empty w r) as Hd. cbn [alloc snd] in Hd.
  rewrite Hd.
  destruct (resolve partialState (deref w r)) as [e|delta] eqn:Hr.
  - left. by exists r, e.
  - right. exists r, delta. repeat split; try done.
    rewrite Object_assign_merge, fill_fresh. done.
Qed.

Lemma destroy_cases w :
  (state w = None ∧ destroy w = Threw ReferenceError (alloc ∅ (clear w)).2) ∨
  (∃ r, state w = Some r ∧ destroy w = Returned (reset (clear w))).
Proof.
  unfold destroy. simpl. destruct (state w) as [r|] eqn:Hs; [right|left]; eauto.
Qed.

Lemma hookListener_steps P h w w' :
  world_of (hookListener h w) = Some w' → steps P w w'.
Proof.
  unfold hookListener, select.
  destruct (hooks w !! h) as [hk|]; simpl; [|intros [= <-]; apply rtc_refl].
  destruct (state w) as [r|]; simpl; [|intros [= <-]; apply rtc_refl].
  destruct (selectStateRef hk r (deref w r)) as [v|o|e]; simpl.
  - destruct (shallowEqual _ _ _); simpl; intros [= <-];
      [apply rtc_refl | apply rtc_once, atom_dispatch].
  - destruct (shallowEqual _ _ _); simpl; intros [= <-].
    + apply rtc_once, (atom_alloc P w o).
    + eapply rtc_l; [apply (atom_alloc P w o)|]. apply rtc_once, atom_dispatch.
  - intros [= <-]; apply rtc_refl.
Qed.

Section EvaluatorSteps.

Variable funs : FunId → Fn.

Lemma andThen_world o k w' :
  world_of (andThen o k) = Some w' →
  (∃ e, o = Threw e w') ∨ (∃ w1, o = Returned w1 ∧ world_of (k w1) = Some w').
Proof.
  destruct o as [w1|e w1|]; simpl; intros H; [right|left|done]; eauto.
  injection H as <-. eauto.
Qed.

Lemma update_steps P partialState w :
  match update partialState w with
  | inl (_, w1) => steps P w w1
  | inr (target, w1) =>
      steps P w w1 ∧ target = length (heap w) ∧ length (heap w1) = S (length (heap w))
  end.
Proof.
  destruct (update_cases partialState w) as [[_ ->]|[(r & e & _ & _ & ->)|(r & d & Hs & _ & ->)]].
  - apply rtc_once, (atom_alloc P w ∅).
  - apply rtc_once, (atom_alloc P w ∅).
  - split; [by eapply rtc_once, atom_rebind|]. split; [done|].
    simpl. rewrite length_app. simpl. lia.
Qed.

Lemma destroy_steps P w w' : world_of (destroy w) = Some w' → steps P w w'.
Proof.
  destruct (destroy_cases w) as [[_ ->]|(r & Hs & ->)]; simpl; intros [= <-].
  - eapply rtc_l; [apply atom_clear|]. apply rtc_once, (atom_alloc P (clear w) ∅).
  - eapply rtc_l; [apply atom_clear|]. by eapply rtc_once, (atom_reset P (clear w) r).
Qed.

(** Every finished evaluation is a sequence of elementary effects, and
    the notifications it logs are labelled by the pass it runs (for
    [forEach]) or by calls that begin later. *)
Lemma eval_steps (fuel : nat) :
  (∀ p w w', world_of (run funs fuel p w) = Some w' → steps (later_than w) w w') ∧
  (∀ ps w w', world_of (setState funs fuel ps w) = Some w' → steps (later_than w) w w') ∧
  (∀ c i w w', world_of (forEach funs fuel c i w) = Some w' →
               steps (pass_or_later c w) w w') ∧
  (∀ f arg w w', world_of (call funs fuel f arg w) = Some w' → steps (later_than w) w w').
Proof.
  induction fuel as [|n (IHrun & IHset & IHeach & IHcall)];
    [repeat split; intros; discriminate|].
  assert (Hseq : ∀ (o : Outcome) k w w',
    (∀ w1, world_of o = Some w1 → steps (later_than w) w w1) →
    (∀ w1 w2, world_of (k w1) = Some w2 → steps (later_than w1) w1 w2) →
    world_of (andThen o k) = Some w' → steps (later_than w) w w').
  { intros o k w w' Ho Hk H.
    apply andThen_world in H as [[e ->]|(w1 & -> & H)]; [by apply Ho|].
    specialize (Ho w1 eq_refl). eapply rtc_trans; [exact Ho|].
    eapply steps_weaken; [|by apply Hk]. unfold later_than. intros c Hc.
    apply steps_heap_length in Ho. lia. }
  repeat split.
  - intros p w w'. destruct p; simpl.
    + intros [= <-]; apply rtc_refl.
    + intros [= <-]; apply rtc_refl.
    + unfold getState. destruct (state w); simpl; [apply IHrun|].
      intros [= <-]; apply rtc_refl.
    + apply IHrun.
    + apply Hseq; [apply IHset | apply IHrun].
    + intros H. apply IHrun in H. eapply rtc_l; [apply atom_subscribe|].
      eapply steps_weaken; [|exact H]. by intros c Hc.
    + intros H. apply IHrun in H. eapply rtc_l; [apply atom_unsubscribe|].
      eapply steps_weaken; [|exact H]. by intros c Hc.
    + apply Hseq; [apply destroy_steps | apply IHrun].
    + apply Hseq; [apply IHcall | apply IHrun].
  - intros ps w w'. simpl.
    pose proof (update_steps (later_than w) ps w) as Hu.
    destruct (update ps w) as [[e w1]|[target w1]]; simpl.
    + by intros [= <-].
    + destruct Hu as (Hu & -> & Hlen). intros H. apply IHeach in H.
      eapply rtc_trans; [exact Hu|]. eapply steps_weaken; [|exact H].
      unfold pass_or_later, later_than. intros c [->|Hc]; lia.
  - intros c i w w'. simpl.
    destruct (listeners w !! i) as [[l|]|] eqn:Hi; simpl.
    + unfold getState. destruct (state w) as [r|] eqn:Hs; simpl;
        [|intros [= <-]; apply rtc_refl].
      intros H. eapply rtc_l; [by eapply (atom_notify _ w c l r i); eauto; left|].
      apply andThen_world in H as [[e H]|(w1 & H1 & H2)].
      * eapply steps_weaken; [|eapply (IHcall l (VRef r)); by rewrite H].
        unfold later_than, pass_or_later. simpl. intros; by right.
      * assert (Hc : steps (later_than (log (Notified c l r) w))
                           (log (Notified c l r) w) w1).
        { eapply (IHcall l (VRef r)). by rewrite H1. }
        eapply rtc_trans.
        { eapply steps_weaken; [|exact Hc]. intros; by right. }
        apply IHeach in H2.
        eapply steps_weaken; [|exact H2].
        unfold pass_or_later. apply steps_heap_length in Hc. simpl in Hc.
        intros c' [->|Hc']; [by left|right; lia].
    + apply IHeach.
    + intros [= <-]; apply rtc_refl.
  - intros f arg w w'. simpl. destruct (funs f) as [body|h].
    + apply IHrun.
    + apply hookListener_steps.
Qed.

End EvaluatorSteps.

(** ** What a sequence of effects preserves *)

Ltac unfold_effects :=
  unfold rebind, reset, clear, subscribe, unsubscribe, dispatch, alloc, log,
    with_heap, with_state, with_listeners, with_hooks in *; simpl in *.

Lemma since_intro w w' seg : trace w' = seg ++ trace w → since w w' = seg.
Proof.
  intros H. unfold since. rewrite H, length_app.
  replace (length seg + length (trace w) - length (trace w)) with (length seg) by lia.
  by rewrite take_app_length.
Qed.

Lemma since_refl w : since w w = [].
Proof. by apply since_intro. Qed.

Lemma atom_trace P w w' : atom P w w' → ∃ evs, trace w' = evs ++ trace w.
Proof.
  destruct 1; unfold_effects;
    solve [by exists [] | by eexists [_]].
Qed.

Lemma steps_trace P w w' : steps P w w' → trace w' = since w w' ++ trace w.
Proof.
  induction 1 as [|x y z Hxy Hyz IH]; [by rewrite since_refl|].
  apply atom_trace in Hxy as [evs Hxy].
  rewrite (since_intro x z (since y z ++ evs)); rewrite IH, Hxy; by rewrite (assoc_L (++)).
Qed.

Lemma since_trans P w1 w2 w3 :
  steps P w1 w2 → steps P w2 w3 → since w1 w3 = since w2 w3 ++ since w1 w2.
Proof.
  intros H12 H23. apply since_intro.
  rewrite (steps_trace _ _ _ H23), (steps_trace _ _ _ H12).
  by rewrite (assoc_L (++)).
Qed.

Lemma atom_heap P w w' r o : atom P w w' → heap w !! r = Some o → heap w' !! r = Some o.
Proof.
  destruct 1; unfold_effects; try done; intros Hr; by apply lookup_app_l_Some.
Qed.

(** Objects are never modified once allocated. *)
Lemma steps_heap P w w' r o : steps P w w' → heap w !! r = Some o → heap w' !! r = Some o.
Proof. induction 1; eauto using atom_heap. Qed.

Lemma steps_deref P w w' r : steps P w w' → r < length (heap w) → deref w' r = deref w r.
Proof.
  intros H Hr. apply lookup_lt_is_Some in Hr as [o Ho].
  unfold deref. by rewrite (steps_heap _ _ _ _ _ H Ho), Ho.
Qed.

Lemma steps_ind_r P w (Q : World → Prop) :
  Q w → (∀ y z, steps P w y → atom P y z → Q y → Q z) → ∀ z, steps P w z → Q z.
Proof. apply rtc_ind_r. Qed.

Ltac steps_induction :=
  match goal with
  | |- ∀ z, steps ?P ?w z → @?Q z => apply (steps_ind_r P w Q); cbv beta
  end.

(** The state variable keeps its reference or is rebound to a new one. *)
Lemma steps_state P w w' :
  steps P w w' →
  state w' = state w ∨ ∃ r', state w' = Some r' ∧ length (heap w) ≤ r'.
Proof.
  revert w'. steps_induction; [by left|intros y z Hwy Hyz IH].
  pose proof (steps_heap_length _ _ _ Hwy) as Hlen.
  destruct Hyz; unfold_effects; try exact IH; right; eexists; split; eauto.
Qed.

Lemma steps_uninitialised P w w' : steps P w w' → state w = None → state w' = None.
Proof.
  intros H Hs. revert w' H. steps_induction; [done|intros y z Hwy Hyz IH].
  destruct Hyz; unfold_effects; congruence.
Qed.

Lemma has_true l ls : has l ls = true ↔ ∃ i, ls !! i = Some (Some l).
Proof.
  unfold has. rewrite bool_decide_eq_true. apply list_elem_of_lookup.
Qed.

Lemma has_false l ls : has l ls = false ↔ ∀ i, ls !! i ≠ Some (Some l).
Proof.
  unfold has. rewrite bool_decide_eq_false, list_elem_of_lookup. split.
  - intros H i Hi. apply H. by exists i.
  - intros H [i Hi]. by apply (H i).
Qed.

Lemma Set_delete_lookup l ls i :
  Set_delete l ls !! i = (λ e, if decide (e = Some l) then None else e) <$> ls !! i.
Proof. unfold Set_delete. apply list_lookup_fmap. Qed.

Lemma Set_clear_lookup ls i : Set_clear ls !! i = (λ _, None) <$> ls !! i.
Proof. unfold Set_clear. apply list_lookup_fmap. Qed.

Lemma Set_add_lookup l ls i x :
  Set_add l ls !! i = Some x →
  ls !! i = Some x ∨ (has l ls = false ∧ i = length ls ∧ x = Some l).
Proof.
  unfold Set_add. destruct (has l ls) eqn:Hh; [by left|].
  intros H0. destruct (proj1 (lookup_app_Some _ _ _ _) H0) as [H|[Hlen H]];
    [by left|right].
  destruct (proj1 (list_lookup_singleton_Some _ _ _) H) as [Hi Hx].
  repeat split; [lia|done].
Qed.

Lemma Set_add_live l ls : live_once ls → live_once (Set_add l ls).
Proof.
  intros Hls i j l' Hi Hj.
  apply Set_add_lookup in Hi as [Hi|(Hh & Hi & Hl)];
    apply Set_add_lookup in Hj as [Hj|(Hh' & Hj & Hl')]; simplify_eq; try done.
  - by eapply Hls.
  - rewrite has_false in Hh'. by destruct (Hh' i).
  - rewrite has_false in Hh. by destruct (Hh j).
Qed.

Lemma Set_delete_live l ls : live_once ls → live_once (Set_delete l ls).
Proof.
  intros Hls i j l'. rewrite !Set_delete_lookup.
  destruct (ls !! i) as [x|] eqn:Hi; [|done].
  destruct (ls !! j) as [y|] eqn:Hj; [|done]. simpl.
  repeat case_decide; try done. intros [= ->] [= ->]. by eapply Hls.
Qed.

Lemma Set_clear_live ls : live_once (Set_clear ls).
Proof.
  intros i j l. rewrite Set_clear_lookup. by destruct (ls !! i).
Qed.

Lemma atom_wf P w w' : atom P w w' → wf w → wf w'.
Proof.
  intros H [Hst Hls]. destruct H; unfold_effects; split; simpl;
    rewrite ?length_app; simpl;
    try (intros r' Hr'; first [injection Hr' as <-; lia | apply Hst in Hr'; lia]);
    try done;
    auto using Set_add_live, Set_delete_live, Set_clear_live.
Qed.

Lemma steps_wf P w w' : steps P w w' → wf w → wf w'.
Proof. induction 1; eauto using atom_wf. Qed.

(** *** Registry entries along an execution *)

Lemma tail_cons (e : Event) evs t : e :: t = evs ++ t → evs = [e].
Proof. intros H. apply (app_inv_tail t). by rewrite <- H. Qed.

Lemma tail_nil (evs t : list Event) : t = evs ++ t → evs = [].
Proof. intros H. apply (app_inv_tail t). by rewrite <- H. Qed.

Ltac name_events :=
  repeat match goal with
  | H : _ :: ?t = ?evs ++ ?t |- _ => apply tail_cons in H
  | H : ?t = ?evs ++ ?t |- _ => apply tail_nil in H
  end.

(** Case analysis on an elementary effect, with the events it logs. *)
Ltac atom_cases H :=
  let Ht := fresh "Ht" in
  pose proof (steps_trace _ _ _ (rtc_once _ _ H)) as Ht;
  destruct H; unfold_effects; name_events; rewrite ?Ht in *; clear Ht.

Lemma since_step P w y z :
  steps P w y → atom P y z → since w z = since y z ++ since w y.
Proof. intros Hwy Hyz. eapply since_trans; [exact Hwy | by apply rtc_once]. Qed.

Lemma atom_listeners_length P w w' :
  atom P w w' → length (listeners w) ≤ length (listeners w').
Proof.
  destruct 1; unfold_effects; try lia.
  - unfold Set_clear. by rewrite length_fmap.
  - unfold Set_add. destruct (has l (listeners w)); rewrite ?length_app; simpl; lia.
  - unfold Set_delete. by rewrite length_fmap.
Qed.

Lemma steps_listeners_length P w w' :
  steps P w w' → length (listeners w) ≤ length (listeners w').
Proof.
  induction 1 as [|x y z Hxy _ IH]; [lia|].
  apply atom_listeners_length in Hxy. lia.
Qed.

(** An entry that is live at the end was live, with the same function,
    ever since it existed. *)
Lemma atom_entry_back P w w' j l :
  atom P w w' → listeners w' !! j = Some (Some l) → j < length (listeners w) →
  listeners w !! j = Some (Some l).
Proof.
  destruct 1; unfold_effects; try done.
  - rewrite Set_clear_lookup. by destruct (listeners w !! j).
  - intros H Hj. apply Set_add_lookup in H as [H|(_ & -> & _)]; [done|lia].
  - rewrite Set_delete_lookup. destruct (listeners w !! j) as [x|]; [|done].
    simpl. by case_decide.
Qed.

Lemma steps_entry_back P w w' j l :
  steps P w w' → listeners w' !! j = Some (Some l) → j < length (listeners w) →
  listeners w !! j = Some (Some l).
Proof.
  induction 1 as [|x y z Hxy Hyz IH]; [done|]. intros Hj Hlt.
  eapply atom_entry_back; [exact Hxy| |exact Hlt].
  apply IH; [done|]. apply atom_listeners_length in Hxy. lia.
Qed.

Lemma removal_free_app l s1 s2 :
  removal_free l (s1 ++ s2) ↔ removal_free l s1 ∧ removal_free l s2.
Proof. unfold removal_free. rewrite !not_elem_of_app. tauto. Qed.

Lemma atom_entry_stays P w w' j l :
  atom P w w' → removal_free l (since w w') →
  listeners w !! j = Some (Some l) → listeners w' !! j = Some (Some l).
Proof.
  intros H [Hu Hc] Hj. atom_cases H; try done.
  - destruct Hc. apply list_elem_of_here.
  - unfold Set_add. destruct (has l0 (listeners w)); [done|]. by apply lookup_app_l_Some.
  - rewrite Set_delete_lookup, Hj. simpl. case_decide as Heq; [|done].
    injection Heq as ->. destruct Hu. apply list_elem_of_here.
Qed.

Lemma steps_entry_stays P w w' j l :
  steps P w w' → removal_free l (since w w') →
  listeners w !! j = Some (Some l) → listeners w' !! j = Some (Some l).
Proof.
  intros H. revert w' H. steps_induction; [done|intros y z Hwy Hyz IH].
  rewrite (since_step _ _ _ _ Hwy Hyz), removal_free_app. intros [Hz Hy] Hj.
  eapply atom_entry_stays; eauto.
Qed.

(** *** Labels of notifications *)

Lemma atom_labels P w w' c l s :
  atom P w w' → Notified c l s ∈ since w w' → P c.
Proof.
  intros H. atom_cases H;
    rewrite ?elem_of_nil, ?list_elem_of_singleton; try done.
  by intros [= -> -> ->].
Qed.

Lemma steps_labels P w w' c l s :
  steps P w w' → Notified c l s ∈ since w w' → P c.
Proof.
  intros H. revert w' H. steps_induction.
  - rewrite since_refl. by intros ?%elem_of_nil.
  - intros y z Hwy Hyz IH. rewrite (since_step _ _ _ _ Hwy Hyz), elem_of_app.
    intros [Hin|Hin]; [by eapply atom_labels|by apply IH].
Qed.

(** A listener is notified with the state reference current at that moment. *)
Lemma atom_seen P w w' c l s :
  atom P w w' → Notified c l s ∈ since w w' →
  state w = Some s ∧ has l (listeners w) = true ∧ w' = log (Notified c l s) w.
Proof.
  intros H. atom_cases H;
    rewrite ?elem_of_nil, ?list_elem_of_singleton; try done.
  intros [= -> -> ->]. repeat split; [done|]. apply has_true. eauto.
Qed.

(** *** Counting invocations *)

Lemma invocations_app c l s1 s2 :
  invocations c l (s1 ++ s2) = invocations c l s1 + invocations c l s2.
Proof. induction s1 as [|e s1 IH]; simpl; [done|]. rewrite IH. lia. Qed.

Lemma invocations_none c l seg :
  (∀ s, Notified c l s ∉ seg) → invocations c l seg = 0.
Proof.
  induction seg as [|e seg IH]; [done|]. intros H. simpl.
  rewrite IH by (intros s Hs; apply (H s); by right).
  destruct e; simpl; try done.
  destruct (bool_decide_reflect (by_call = c)) as [->|]; [|done].
  destruct (bool_decide_reflect (listener = l)) as [->|]; [|done].
  destruct (H seen). by left.
Qed.

(** Code started in [w] cannot label a notification with a reference
    that was already allocated. *)
Lemma steps_later_invocations w w' c l :
  steps (later_than w) w w' → c < length (heap w) → invocations c l (since w w') = 0.
Proof.
  intros H Hc. apply invocations_none. intros s Hin.
  apply (steps_labels _ _ _ _ _ _ H) in Hin. unfold later_than in Hin. lia.
Qed.

(** *** The argument of a notification *)

Lemma state_after_app init s1 s2 :
  state_after init (s1 ++ s2) = state_after (state_after init s2) s1.
Proof.
  induction s1 as [|e s1 IH]; simpl; [done|]. by destruct (rebinds e).
Qed.

Lemma atom_state_after P w w' : atom P w w' → state w' = state_after (state w) (since w w').
Proof. intros H. atom_cases H; done. Qed.

Lemma steps_state_after P w w' :
  steps P w w' → state w' = state_after (state w) (since w w').
Proof.
  revert w'. steps_induction; [by rewrite since_refl|intros y z Hwy Hyz IH].
  rewrite (since_step _ _ _ _ Hwy Hyz), state_after_app, <- IH.
  by eapply atom_state_after.
Qed.

Lemma split_cons_app {A} (e x : A) (post pre tl : list A) :
  e :: tl = post ++ x :: pre →
  (post = [] ∧ e = x ∧ tl = pre) ∨ (∃ post', post = e :: post' ∧ tl = post' ++ x :: pre).
Proof.
  destruct post as [|e' post']; simpl; intros [= -> ->]; [by left|right; eauto].
Qed.

(** Whenever a listener is invoked, its argument is the value [state] has
    at that moment. *)
Lemma steps_seen_current P w w' post pre c l s :
  steps P w w' → since w w' = post ++ Notified c l s :: pre →
  state_after (state w) pre = Some s.
Proof.
  intros H. revert w' H post. steps_induction.
  - intros post. rewrite since_refl. by destruct post.
  - intros y z Hwy Hyz IH post. rewrite (since_step _ _ _ _ Hwy Hyz).
    pose proof (steps_state_after _ _ _ Hwy) as Hst.
    pose proof (atom_seen P y z) as Hseen.
    atom_cases Hyz; simpl; try apply IH;
      intros [(-> & He & <-)|(post' & -> & Htl)]%split_cons_app;
      try discriminate He; try (by eapply IH).
    injection He as -> -> ->. by rewrite <- Hst.
Qed.

Lemma state_after_only r seg init :
  only_rebind r seg → (∃ e, e ∈ seg ∧ rebinds e = Some r) →
  state_after init seg = Some r.
Proof.
  induction seg as [|e seg IH]; intros Hall [e0 [Hin He0]]; [by apply elem_of_nil in Hin|].
  simpl. destruct (rebinds e) as [r'|] eqn:He.
  - f_equal. eapply Hall; [by left|done].
  - apply IH.
    + intros e1 r1 Hin1. apply Hall. by right.
    + apply elem_of_cons in Hin as [->|Hin]; [congruence|eauto].
Qed.

(** ** One notification pass *)

Section Passes.

Variable funs : FunId → Fn.

Lemma run_later fuel p w w' :
  world_of (run funs fuel p w) = Some w' → steps (later_than w) w w'.
Proof. apply (eval_steps funs fuel). Qed.

Lemma setState_later fuel ps w w' :
  world_of (setState funs fuel ps w) = Some w' → steps (later_than w) w w'.
Proof. apply (eval_steps funs fuel). Qed.

Lemma forEach_labelled fuel c i w w' :
  world_of (forEach funs fuel c i w) = Some w' → steps (pass_or_later c w) w w'.
Proof. apply (eval_steps funs fuel). Qed.

Lemma call_later fuel f arg w w' :
  world_of (call funs fuel f arg w) = Some w' → steps (later_than w) w w'.
Proof. apply (eval_steps funs fuel). Qed.

Lemma run_effects fuel p w w' :
  world_of (run funs fuel p w) = Some w' → steps anything w w'.
Proof. intros H. eapply steps_weaken; [|by eapply run_later]. done. Qed.

Lemma setState_effects fuel ps w w' :
  world_of (setState funs fuel ps w) = Some w' → steps anything w w'.
Proof. intros H. eapply steps_weaken; [|by eapply setState_later]. done. Qed.

Lemma forEach_effects fuel c i w w' :
  world_of (forEach funs fuel c i w) = Some w' → steps anything w w'.
Proof. intros H. eapply steps_weaken; [|by eapply forEach_labelled]. done. Qed.

Lemma andThen_returned o k w' :
  andThen o k = Returned w' → ∃ w1, o = Returned w1 ∧ k w1 = Returned w'.
Proof. destruct o as [w1|e w1|]; simpl; intros H; try done. eauto. Qed.

(** One pass, resumed at entry [i]: a function that occupies entry [j]
    when the pass ends, and that nobody removed meanwhile, was invoked
    by the pass exactly once if its entry lay ahead, and not at all
    otherwise. *)
Lemma forEach_invocations fuel : ∀ c i w w',
  wf w → c < length (heap w) → i ≤ length (listeners w) →
  forEach funs fuel c i w = Returned w' →
  ∀ j l, listeners w' !! j = Some (Some l) → removal_free l (since w w') →
  invocations c l (since w w') = if decide (i ≤ j) then 1 else 0.
Proof.
  induction fuel as [|n IH]; [done|]. intros c i w w' Hwf Hc Hi Hrun j l Hj Hfree.
  pose proof (forEach_effects (S n) c i w w') as Hall.
  rewrite Hrun in Hall. specialize (Hall eq_refl).
  simpl in Hrun. destruct (listeners w !! i) as [[l'|]|] eqn:Hentry.
  - unfold getState in Hrun. destruct (state w) as [r|] eqn:Hs; [|done].
    apply andThen_returned in Hrun as (w1 & Hcall & Hrest).
    set (w0 := log (Notified c l' r) w) in *.
    assert (H0 : steps anything w w0).
    { apply rtc_once. by eapply (atom_notify _ w c l' r i). }
    assert (H1 : steps (later_than w0) w0 w1).
    { eapply call_later. by rewrite Hcall. }
    assert (H1' : steps anything w0 w1) by (by eapply steps_weaken; [|exact H1]).
    assert (H2 : steps anything w1 w').
    { eapply forEach_effects. by rewrite Hrest. }
    assert (Hw1 : steps anything w w1) by (by eapply rtc_trans).
    rewrite (since_trans _ _ _ _ Hw1 H2), (since_trans _ _ _ _ H0 H1') in Hfree |- *.
    apply removal_free_app in Hfree as [Hfree2 Hfree01].
    rewrite !invocations_app.
    rewrite (steps_later_invocations w0 w1 c l H1 Hc).
    pose proof (steps_heap_length _ _ _ Hw1) as Hheap.
    pose proof (steps_listeners_length _ _ _ Hw1) as Hlen.
    apply lookup_lt_Some in Hentry as Hlt.
    rewrite (IH c (S i) w1 w' (steps_wf _ _ _ Hw1 Hwf) ltac:(lia) ltac:(lia) Hrest j l Hj Hfree2).
    rewrite (since_intro w w0 [Notified c l' r]) by done. simpl.
    rewrite bool_decide_eq_true_2 by done. simpl.
    destruct (decide (i = j)) as [->|Hne].
    + pose proof (steps_entry_back _ _ _ _ _ Hall Hj Hlt) as Hj0.
      rewrite Hentry in Hj0. injection Hj0 as ->.
      rewrite bool_decide_eq_true_2 by done.
      rewrite decide_False by lia. rewrite decide_True by lia. done.
    + rewrite bool_decide_eq_false_2.
      * repeat case_decide; lia.
      * intros ->. apply Hne.
        assert (Hfree : removal_free l (since w w')).
        { rewrite (since_trans _ _ _ _ Hw1 H2). apply removal_free_app. split; [done|].
          by rewrite (since_trans _ _ _ _ H0 H1'). }
        pose proof (steps_entry_stays _ _ _ _ _ Hall Hfree Hentry) as Hi'.
        eapply (wf_listeners _ (steps_wf _ _ _ Hall Hwf)); eauto.
  - assert (Hne : i ≠ j).
    { intros ->. apply lookup_lt_Some in Hentry as Hlt.
      pose proof (steps_entry_back _ _ _ _ _ Hall Hj Hlt) as Hj0. congruence. }
    rewrite (IH c (S i) w w' Hwf Hc) with (j := j) (l := l); try done.
    + repeat case_decide; lia.
    + apply lookup_lt_Some in Hentry. lia.
  - injection Hrun as <-. rewrite since_refl. simpl.
    apply lookup_lt_Some in Hj. apply lookup_ge_None in Hentry.
    rewrite decide_False by lia. done.
Qed.

(** A whole [setState] call: every function registered when the call
    returns, and not removed at any time during it, was invoked exactly
    once by the pass of this call. *)
Lemma setState_invocations fuel ps w w' l :
  wf w → setState funs fuel ps w = Returned w' →
  has l (listeners w') = true → removal_free l (since w w') →
  invocations (length (heap w)) l (since w w') = 1.
Proof.
  intros Hwf Hrun [j Hj]%has_true Hfree. destruct fuel as [|n]; [done|].
  simpl in Hrun.
  destruct (update_cases ps w) as [[_ Hu]|[(r & e & _ & _ & Hu)|(r & d & Hs & _ & Hu)]];
    rewrite Hu in Hrun; try done.
  set (w1 := rebind d r w) in *.
  assert (H0 : steps anything w w1) by (by eapply rtc_once, atom_rebind).
  assert (H1 : steps anything w1 w').
  { eapply forEach_effects. by rewrite Hrun. }
  rewrite (since_trans _ _ _ _ H0 H1) in Hfree |- *.
  apply removal_free_app in Hfree as [Hfree1 _].
  rewrite invocations_app.
  rewrite (forEach_invocations n (length (heap w)) 0 w1 w') with (j := j); try done.
  - rewrite (since_intro w w1 [Merged d (length (heap w))]) by done.
    rewrite decide_True by lia. simpl. lia.
  - eapply steps_wf; eauto.
  - simpl. rewrite length_app. simpl. lia.
  - lia.
Qed.

End Passes.

(** *** A function that is not registered hears nothing *)

Lemma atom_registered P y z l :
  atom P y z → has l (listeners z) = true →
  has l (listeners y) = true ∨ Subscribed l ∈ since y z.
Proof.
  intros H. atom_cases H; auto.
  - intros [i Hi]%has_true. rewrite Set_clear_lookup in Hi.
    by destruct (listeners w !! i).
  - intros [i Hi]%has_true.
    apply Set_add_lookup in Hi as [Hi|(_ & _ & [= ->])].
    + left. apply has_true. eauto.
    + right. apply list_elem_of_here.
  - intros [i Hi]%has_true. rewrite Set_delete_lookup in Hi.
    destruct (listeners w !! i) as [x|] eqn:Hx; [|done]. simpl in Hi.
    case_decide; [done|]. left. apply has_true. exists i. congruence.
Qed.

Lemma steps_quiet P w w' l :
  steps P w w' → has l (listeners w) = false →
  (has l (listeners w') = true → Subscribed l ∈ since w w') ∧
  quiet_until_subscribed l (since w w').
Proof.
  intros H Hno. revert w' H. steps_induction.
  - rewrite since_refl. split; [congruence|]. intros post c s pre Heq. by destruct post.
  - intros y z Hwy Hyz [IHreg IHquiet]. rewrite (since_step _ _ _ _ Hwy Hyz). split.
    + intros Hz. apply elem_of_app.
      destruct (atom_registered _ _ _ _ Hyz Hz) as [Hy|Hsub]; auto.
    + pose proof (atom_seen P y z) as Hseen.
      intros post c s pre. atom_cases Hyz; simpl; try apply IHquiet;
        intros [(-> & He & <-)|(post' & -> & Htl)]%split_cons_app;
        try discriminate He; try (by eapply IHquiet).
      injection He as -> -> ->. apply IHreg. apply has_true. eauto.
Qed.

(** *** The state as the merge of the applied deltas *)

Lemma replay_app base s1 s2 : replay base (s1 ++ s2) = replay (replay base s2) s1.
Proof.
  induction s1 as [|e s1 IH]; simpl; [done|]. destruct e; by rewrite ?IH.
Qed.

Lemma no_reset_app s1 s2 : no_reset (s1 ++ s2) ↔ no_reset s1 ∧ no_reset s2.
Proof.
  unfold no_reset. split.
  - intros H. split; intros r Hr; apply (H r), elem_of_app; auto.
  - intros [H1 H2] r [Hr|Hr]%elem_of_app; [by apply (H1 r)|by apply (H2 r)].
Qed.

Lemma current_alloc o w : wf w → current (alloc o w).2 = current w.
Proof.
  intros [Hst _]. unfold current. simpl. destruct (state w) as [r|] eqn:Hs; [|done].
  simpl. apply (deref_alloc o w r). auto.
Qed.

Lemma current_rebind delta r w : state w = Some r → current (rebind delta r w) = delta ∪ current w.
Proof.
  intros Hs. unfold current. rewrite Hs. simpl. unfold deref. simpl.
  rewrite lookup_app_r by lia. by rewrite Nat.sub_diag.
Qed.

Lemma atom_replay P w w' :
  atom P w w' → wf w → no_reset (since w w') →
  current w' = replay (current w) (since w w').
Proof.
  intros H Hwf Hnr. pose proof (current_alloc) as Ha. pose proof current_rebind as Hb.
  atom_cases H; simpl; try done.
  - by apply Ha.
  - by apply Hb.
  - destruct (Hnr (length (heap w))). apply list_elem_of_here.
Qed.

Lemma steps_replay P w w' :
  steps P w w' → wf w → no_reset (since w w') →
  current w' = replay (current w) (since w w').
Proof.
  intros H Hwf. revert w' H. steps_induction; [by rewrite since_refl|].
  intros y z Hwy Hyz IH. rewrite (since_step _ _ _ _ Hwy Hyz), no_reset_app.
  intros [Hz Hy]. rewrite replay_app, <- IH by done.
  apply (atom_replay P); eauto using steps_wf.
Qed.

(** ** More fuel never changes a finished evaluation *)

Lemma andThen_more (o o' : Outcome) (k k' : World → Outcome) :
  andThen o k ≠ OutOfFuel →
  (o ≠ OutOfFuel → o' = o) →
  (∀ w, o = Returned w → k w ≠ OutOfFuel → k' w = k w) →
  andThen o' k' = andThen o k.
Proof.
  intros Hfin Ho Hk. destruct o as [w|e w|]; simpl in *; try done.
  - rewrite Ho by done. simpl. by apply Hk.
  - by rewrite Ho.
Qed.

Section FuelMonotone.

Variable funs : FunId → Fn.

Lemma eval_more (n : nat) :
  (∀ p w m, run funs n p w ≠ OutOfFuel → n ≤ m → run funs m p w = run funs n p w) ∧
  (∀ ps w m, setState funs n ps w ≠ OutOfFuel → n ≤ m →
             setState funs m ps w = setState funs n ps w) ∧
  (∀ c i w m, forEach funs n c i w ≠ OutOfFuel → n ≤ m →
              forEach funs m c i w = forEach funs n c i w) ∧
  (∀ f arg w m, call funs n f arg w ≠ OutOfFuel → n ≤ m →
                call funs m f arg w = call funs n f arg w).
Proof.
  induction n as [|n (IHrun & IHset & IHeach & IHcall)]; [repeat split; done|].
  repeat split.
  - intros p w [|m] Hfin Hle; [lia|]. assert (n ≤ m) by lia.
    destruct p; simpl in *; auto.
    + destruct (getState w); auto.
    + apply andThen_more; auto.
    + apply andThen_more; auto.
    + apply andThen_more; auto.
  - intros ps w [|m] Hfin Hle; [lia|]. assert (n ≤ m) by lia. simpl in *.
    destruct (update ps w) as [[e w1]|[target w1]]; auto.
  - intros c i w [|m] Hfin Hle; [lia|]. assert (n ≤ m) by lia. simpl in *.
    destruct (listeners w !! i) as [[l|]|]; auto.
    destruct (getState w); auto. apply andThen_more; auto.
  - intros f arg w [|m] Hfin Hle; [lia|]. assert (n ≤ m) by lia. simpl in *.
    destruct (funs f); auto.
Qed.

Lemma run_more n m p w w' :
  run funs n p w = Returned w' → n ≤ m → run funs m p w = Returned w'.
Proof.
  intros H Hle. rewrite <- H. apply (eval_more n); [by rewrite H|done].
Qed.

Lemma setState_more n m ps w w' :
  setState funs n ps w = Returned w' → n ≤ m → setState funs m ps w = Returned w'.
Proof.
  intros H Hle. rewrite <- H. apply (eval_more n); [by rewrite H|done].
Qed.

Lemma forEach_more n m c i w w' :
  forEach funs n c i w = Returned w' → n ≤ m → forEach funs m c i w = Returned w'.
Proof.
  intros H Hle. rewrite <- H. apply (eval_more n); [by rewrite H|done].
Qed.

Lemma call_more n m f arg w w' :
  call funs n f arg w = Returned w' → n ≤ m → call funs m f arg w = Returned w'.
Proof.
  intros H Hle. rewrite <- H. apply (eval_more n); [by rewrite H|done].
Qed.

End FuelMonotone.

(** ** Listeners that only observe *)

Lemma shallow_merge_lookup base delta key :
  shallow_merge base delta !! key =
  match delta !! key with Some v => Some v | None => base !! key end.
Proof. unfold shallow_merge. rewrite lookup_merge. by destruct (delta !! key), (base !! key). Qed.

Lemma shallow_merge_union base delta : shallow_merge base delta = delta ∪ base.
Proof.
  apply map_eq. intros key. rewrite shallow_merge_lookup, lookup_union.
  by destruct (delta !! key), (base !! key).
Qed.

Section Observers.

Variable funs : FunId → Fn.

Lemma observer_run p w :
  observer p → is_Some (state w) → ∃ n, run funs n p w = Returned w.
Proof.
  intros Hp [r Hs]. induction Hp as [|k _ IH|r' k _ IH].
  - by exists 1.
  - destruct (IH r) as [n Hn]. exists (S n). simpl. unfold getState. by rewrite Hs.
  - destruct (IH (deref w r')) as [n Hn]. by exists (S n).
Qed.

Lemma forEach_observed c r (k : nat) : ∀ i w,
  length (listeners w) - i = k → state w = Some r → observed_only funs (listeners w) →
  ∃ n w', forEach funs n c i w = Returned w' ∧
          heap w' = heap w ∧ state w' = state w ∧ listeners w' = listeners w ∧
          ∀ e, e ∈ since w w' → ∃ l, e = Notified c l r.
Proof.
  induction k as [|k IH]; intros i w Hk Hs Hobs.
  - exists 1, w. simpl. rewrite lookup_ge_None_2 by lia. repeat split.
    rewrite since_refl. by intros e ?%elem_of_nil.
  - assert (Hi : i < length (listeners w)) by lia.
    apply lookup_lt_is_Some in Hi as [[l|] Hi].
    + destruct (Hobs l) as (body & Hf & Hbody); [apply has_true; eauto|].
      set (w0 := log (Notified c l r) w).
      destruct (observer_run (body (VRef r)) w0 (Hbody _)) as [n1 Hn1]; [by exists r|].
      destruct (IH (S i) w0) as (n2 & w' & Hn2 & Hh & Hst & Hls & Hev);
        [simpl; lia|done|done|].
      exists (S (S n1 `max` n2)), w'. split; [|repeat split; try done].
      * simpl. rewrite Hi. unfold getState. rewrite Hs.
        rewrite (call_more funs (S n1) _ l (VRef r) w0 w0); [|simpl; by rewrite Hf|lia].
        simpl. apply (forEach_more funs n2); [done|lia].
      * assert (H0 : steps anything w w0).
        { apply rtc_once. by eapply (atom_notify _ w c l r i). }
        assert (H1 : steps anything w0 w').
        { eapply forEach_effects. by rewrite Hn2. }
        rewrite (since_trans _ _ _ _ H0 H1), (since_intro w w0 [Notified c l r]) by done.
        intros e [He|He]%elem_of_app; [by apply Hev|].
        apply list_elem_of_singleton in He as ->. by exists l.
    + destruct (IH (S i) w) as (n & w' & Hn & Hrest); [lia|done|done|].
      exists (S n), w'. split; [|done]. simpl. by rewrite Hi.
Qed.

Lemma setState_observed ps w r delta :
  state w = Some r → resolve ps (deref w r) = inr delta →
  observed_only funs (listeners w) →
  ∃ n w', setState funs n ps w = Returned w' ∧
          current w' = shallow_merge (current w) delta ∧
          is_Some (state w') ∧ listeners w' = listeners w ∧
          plain_call delta (length (heap w)) (since w w').
Proof.
  intros Hs Hr Hobs.
  destruct (update_cases ps w) as [[Hn _]|[(r' & e & Hs' & Hr' & _)|(r' & d & Hs' & Hr' & Hu)]];
    [congruence|congruence|].
  assert (r' = r) as -> by congruence. assert (d = delta) as -> by congruence.
  destruct (forEach_observed (length (heap w)) (length (heap w)) _ 0
              (rebind delta r w) eq_refl)
    as (n & w' & Hn & Hh & Hst & Hls & Hev); [done|done|].
  exists (S n), w'. simpl. rewrite Hu. split; [done|].
  split; [|split; [by rewrite Hst; eexists|split; [done|]]].
  - rewrite shallow_merge_union, <- (current_rebind delta r w Hs).
    unfold current, deref. by rewrite Hh, Hst.
  - assert (H0 : steps anything w (rebind delta r w)) by (by eapply rtc_once, atom_rebind).
    assert (H1 : steps anything (rebind delta r w) w').
    { eapply forEach_effects. by rewrite Hn. }
    rewrite (since_trans _ _ _ _ H0 H1),
      (since_intro w (rebind delta r w) [Merged delta (length (heap w))]) by done.
    intros e [He|He]%elem_of_app; [right; by apply Hev|].
    apply list_elem_of_singleton in He as ->. by left.
Qed.

Lemma plain_call_removal_free delta t seg l : plain_call delta t seg → removal_free l seg.
Proof.
  intros H. split; intros Hin; by destruct (H _ Hin) as [?|[? ?]].
Qed.

Lemma plain_call_only_rebind delta t seg : plain_call delta t seg → only_rebind t seg.
Proof.
  intros H e r' Hin He. destruct (H _ Hin) as [->|[l ->]]; simpl in He; congruence.
Qed.

Lemma setStates_observed ps : ∀ w final,
  is_Some (state w) → observed_only funs (listeners w) →
  merge_sequence (current w) ps = inr final →
  ∃ n w', run funs n (setStates ps) w = Returned w' ∧ current w' = final.
Proof.
  induction ps as [|p ps IH]; intros w final Hs Hobs Hseq; simpl in Hseq.
  - exists 1, w. split; [done|]. by injection Hseq.
  - destruct Hs as [r Hs]. assert (Hcur : current w = deref w r).
    { unfold current. by rewrite Hs. }
    rewrite Hcur in Hseq.
    destruct (resolve p (deref w r)) as [e|delta] eqn:Hr; [done|].
    destruct (setState_observed p w r delta Hs Hr Hobs)
      as (n1 & w1 & Hn1 & Hc1 & Hs1 & Hl1 & _).
    rewrite <- Hcur, <- Hc1 in Hseq.
    destruct (IH w1 final Hs1) as (n2 & w' & Hn2 & Hfinal); [by rewrite Hl1|done|].
    exists (S (n1 `max` n2)), w'. split; [|done]. simpl.
    rewrite (setState_more funs n1 _ p w w1 Hn1) by lia. simpl.
    apply (run_more funs n2); [done|lia].
Qed.

End Observers.

(** ** Callbacks that only modify the registry *)

Lemma andThen_never_throws o k :
  never_throws o → (∀ w, is_Some (state w) → never_throws (k w)) →
  never_throws (andThen o k).
Proof. destruct o; simpl; auto. Qed.

Section Structural.

Variable funs : FunId → Fn.
Hypothesis Hfuns : structural_only funs.

Lemma structural_never_throws (n : nat) :
  (∀ p w, structural p = true → is_Some (state w) → never_throws (run funs n p w)) ∧
  (∀ c i w, is_Some (state w) → never_throws (forEach funs n c i w)) ∧
  (∀ f arg w, is_Some (state w) → never_throws (call funs n f arg w)).
Proof.
  induction n as [|n (IHrun & IHeach & IHcall)]; [by repeat split|]. repeat split.
  - intros p w Hp Hs. destruct p; simpl in *; try done.
    + by apply IHrun.
    + by apply IHrun.
    + apply andThen_never_throws; [|by auto].
      destruct Hs as [r Hs].
      destruct (destroy_cases w) as [[Hn _]|(r' & _ & ->)]; [congruence|].
      simpl. by eexists.
  - intros c i w Hs. simpl.
    destruct (listeners w !! i) as [[l|]|]; simpl; auto.
    unfold getState. destruct Hs as [r Hs]. rewrite Hs.
    apply andThen_never_throws; [|by auto].
    apply IHcall. by exists r.
  - intros f arg w Hs. simpl.
    destruct (Hfuns f) as (body & -> & Hbody). by apply IHrun.
Qed.

End Structural.

(** ** The cells of a hook after a commit *)

Lemma commitRefs_cells h selectState stateSlice w :
  hooks (commitRefs h selectState stateSlice w) !! h
  = Some (mkHook selectState stateSlice (dispatched_of h w)).
Proof. unfold commitRefs, dispatched_of. simpl. by rewrite lookup_insert_eq. Qed.

(** ** Concrete worlds and the world [create] returns *)

Lemma live_once_NoDup (ls : list (option FunId)) : NoDup (omap id ls) → live_once ls.
Proof.
  induction ls as [|x ls IH]; intros Hnd i j l Hi Hj; [done|].
  assert (Hin : ∀ k, ls !! k = Some (Some l) → l ∈ omap id ls).
  { intros k Hk. apply list_elem_of_omap. exists (Some l). split; [|done].
    apply list_elem_of_lookup. eauto. }
  assert (Htl : NoDup (omap id ls)).
  { destruct x; simpl in Hnd; [by apply NoDup_cons in Hnd as [_ ?]|done]. }
  destruct i as [|i], j as [|j]; simpl in *; try done.
  - injection Hi as ->. simpl in Hnd. apply NoDup_cons in Hnd as [Hnot _].
    destruct Hnot. eauto.
  - injection Hj as ->. simpl in Hnd. apply NoDup_cons in Hnd as [Hnot _].
    destruct Hnot. eauto.
  - f_equal. eapply IH; eauto.
Qed.

Lemma wfb_wf w : wfb w = true → wf w.
Proof.
  unfold wfb. intros [Hnd Hst]%andb_true_iff. split.
  - intros r Hr. rewrite Hr in Hst. by apply bool_decide_eq_true in Hst.
  - apply live_once_NoDup. by apply bool_decide_eq_true in Hnd.
Qed.

Lemma wf_world0 : wf world0.
Proof. split; [done|]. intros i j l Hi. done. Qed.

Lemma create_returned funs fuel body o w :
  create funs fuel body o = Returned w →
  wf w ∧ ∃ r, state w = Some r ∧ deref w r = o.
Proof.
  unfold create. intros (w1 & Hrun & Hret)%andThen_returned.
  assert (Hsteps : steps anything world0 w1).
  { eapply run_effects. by rewrite Hrun. }
  pose proof (steps_wf _ _ _ Hsteps wf_world0) as [Hst Hls].
  simpl in Hret. injection Hret as <-. split.
  - split; simpl; [|done]. intros r [= <-]. rewrite length_app. simpl. lia.
  - eexists. split; [done|]. unfold deref. simpl.
    rewrite lookup_app_r by lia. by rewrite Nat.sub_diag.
Qed.

(** *** Removal silences a listener *)

Lemma atom_since_short P y z : atom P y z → since y z = [] ∨ ∃ e, since y z = [e].
Proof. intros H. atom_cases H; eauto. Qed.

Lemma atom_removes P y z l e :
  atom P y z → e ∈ since y z → removes l e → has l (listeners z) = false.
Proof.
  intros H. atom_cases H; rewrite ?elem_of_nil, ?list_elem_of_singleton; try done;
    intros -> [He|He]; try discriminate He; apply has_false; intros i.
  - rewrite Set_clear_lookup. by destruct (listeners w !! i).
  - injection He as ->. rewrite Set_delete_lookup.
    destruct (listeners w !! i) as [x|]; [|done]. simpl. case_decide; congruence.
Qed.

Lemma atom_unregistered P y z l :
  atom P y z → has l (listeners y) = false → Subscribed l ∉ since y z →
  has l (listeners z) = false.
Proof.
  intros H Hy Hsub. destruct (has l (listeners z)) eqn:Hz; [|done].
  destruct (atom_registered _ _ _ _ H Hz); [congruence|done].
Qed.

Lemma steps_silenced P w w' l :
  steps P w w' →
  (∀ mid e pre, since w w' = mid ++ e :: pre → removes l e → Subscribed l ∉ mid →
                has l (listeners w') = false) ∧
  silenced_after_removal l (since w w').
Proof.
  revert w'. steps_induction.
  - rewrite since_refl. split.
    + intros mid e pre Heq. by destruct mid.
    + intros post c s mid e pre Heq. by destruct post.
  - intros y z Hwy Hyz [IHreg IHsil]. rewrite (since_step _ _ _ _ Hwy Hyz). split.
    + intros mid e pre Heq He Hmid.
      destruct (atom_since_short _ _ _ Hyz) as [Hev|[e0 Hev]]; rewrite Hev in Heq.
      * eapply atom_unregistered; [exact Hyz| |by rewrite Hev; apply not_elem_of_nil].
        eapply IHreg; eauto.
      * apply split_cons_app in Heq as [(-> & -> & _)|(mid' & -> & Heq)].
        -- eapply atom_removes; [exact Hyz| |exact He]. rewrite Hev. by left.
        -- apply not_elem_of_cons in Hmid as [Hne Hmid'].
           eapply atom_unregistered; [exact Hyz|by eapply IHreg|].
           rewrite Hev. intros Hin%list_elem_of_singleton. by apply Hne.
    + intros post c s mid e pre Heq He.
      destruct (atom_since_short _ _ _ Hyz) as [Hev|[e0 Hev]]; rewrite Hev in Heq.
      * eapply IHsil; eauto.
      * apply split_cons_app in Heq as [(-> & -> & Heq)|(post' & -> & Heq)].
        -- destruct (decide (Subscribed l ∈ mid)) as [|Hnot]; [done|].
           pose proof (IHreg _ _ _ Heq He Hnot) as Hoff.
           destruct (atom_seen _ _ _ c l s Hyz) as (_ & Hon & _);
             [rewrite Hev; by left|congruence].
        -- eapply IHsil; eauto.
Qed.

(** ** Facts about one [setState] call *)

Lemma last_event_in_suffix {A} (x m : A) (post pre body : list A) :
  post ++ x :: pre = body ++ [m] → x ≠ m → m ∈ pre.
Proof.
  intros Heq Hne. apply last_Some_elem_of.
  apply (last_cons_Some_ne x); [done|].
  by rewrite <- (last_app_cons post), Heq, last_snoc.
Qed.

Section OneCall.

Variable funs : FunId → Fn.

(** A call that returns has rebound [state] to a fresh object and then run
    the pass. *)
Lemma setState_returned fuel ps w w' :
  setState funs fuel ps w = Returned w' →
  ∃ n r delta,
    fuel = S n ∧ state w = Some r ∧ resolve ps (deref w r) = inr delta ∧
    forEach funs n (length (heap w)) 0 (rebind delta r w) = Returned w' ∧
    steps anything (rebind delta r w) w' ∧
    since w w' = since (rebind delta r w) w' ++ [Merged delta (length (heap w))].
Proof.
  intros Hrun. destruct fuel as [|n]; [done|]. simpl in Hrun.
  destruct (update_cases ps w) as [[_ Hu]|[(r & e & _ & _ & Hu)|(r & d & Hs & Hr & Hu)]];
    rewrite Hu in Hrun; try done.
  assert (H1 : steps anything (rebind d r w) w').
  { eapply forEach_effects. by rewrite Hrun. }
  exists n, r, d. repeat split; try done.
  assert (H0 : steps anything w (rebind d r w)) by (by eapply rtc_once, atom_rebind).
  rewrite (since_trans _ _ _ _ H0 H1). f_equal. by apply since_intro.
Qed.

Lemma registration_survives fuel ps w w' l :
  world_of (setState funs fuel ps w) = Some w' →
  has l (listeners w) = true → removal_free l (since w w') →
  has l (listeners w') = true.
Proof.
  intros Hrun [j Hj]%has_true Hfree. apply has_true. exists j.
  eapply steps_entry_stays; [by eapply setState_effects| |]; done.
Qed.

End OneCall.

(** *** The registry operations *)

Lemma Set_delete_idempotent l ls : Set_delete l (Set_delete l ls) = Set_delete l ls.
Proof.
  unfold Set_delete. rewrite <- list_fmap_compose. apply list_fmap_ext.
  intros i x _. simpl. repeat case_decide; congruence.
Qed.

Lemma Set_delete_has l ls : has l (Set_delete l ls) = false.
Proof.
  apply has_false. intros i. rewrite Set_delete_lookup.
  destruct (ls !! i) as [x|]; [|done]. simpl. case_decide; congruence.
Qed.

Lemma Set_delete_other l l' ls j :
  l' ≠ l → Set_delete l ls !! j = Some (Some l') ↔ ls !! j = Some (Some l').
Proof.
  intros Hne. rewrite Set_delete_lookup. destruct (ls !! j) as [x|]; [|done].
  simpl. case_decide; [|done]. subst x. split; intros H; [done|congruence].
Qed.

Lemma Set_add_has l ls : has l (Set_add l ls) = true.
Proof.
  unfold Set_add. destruct (has l ls) eqn:Hh; [done|].
  apply has_true. exists (length ls). rewrite lookup_app_r by lia.
  by rewrite Nat.sub_diag.
Qed.

Lemma Set_add_idempotent l ls : Set_add l (Set_add l ls) = Set_add l ls.
Proof. unfold Set_add at 1. by rewrite Set_add_has. Qed.




(** ** A pass over a stretch of observers *)

Lemma logged_nil w : logged [] w = w.
Proof. by destruct w. Qed.

Lemma logged_log evs e w : logged evs (log e w) = logged (evs ++ [e]) w.
Proof. unfold logged, log. simpl. by rewrite <- (assoc_L (++)). Qed.

Lemma notices_cons c r l fs : notices c r (l :: fs) = notices c r fs ++ [Notified c l r].
Proof. unfold notices. simpl. by rewrite reverse_cons. Qed.

Lemma since_logged evs w : since w (logged evs w) = evs.
Proof. by apply since_intro. Qed.

Lemma observed_only_between funs ls i j :
  observed_only funs ls → observers_between funs i j ls.
Proof. intros H i' l _ Hl. apply H, has_true. eauto. Qed.

Section Stretch.

Variable funs : FunId → Fn.

(** Running the pass from entry [i] over observers up to entry [j] comes
    to running it from entry [j] once their notifications are logged. *)
Lemma forEach_skip_observers c r (k : nat) : ∀ i w j n out,
  j - i = k → i ≤ j → j ≤ length (listeners w) → state w = Some r →
  observers_between funs i j (listeners w) →
  forEach funs n c j
    (logged (notices c r (live (take (j - i) (drop i (listeners w))))) w) = out →
  out ≠ OutOfFuel →
  ∃ n', forEach funs n' c i w = out.
Proof.
  induction k as [|k IH]; intros i w j n out Hk Hij Hj Hs Hobs Hrun Hfin.
  - assert (i = j) as -> by lia. rewrite Nat.sub_diag in Hrun. simpl in Hrun.
    rewrite logged_nil in Hrun. by exists n.
  - assert (Hi : i < length (listeners w)) by lia.
    apply lookup_lt_is_Some in Hi as [x Hi].
    rewrite Hk in Hrun. rewrite (drop_S _ _ _ Hi) in Hrun. simpl in Hrun.
    destruct x as [l|].
    + unfold live in Hrun. simpl in Hrun. fold (live (take k (drop (S i) (listeners w)))) in Hrun.
      rewrite notices_cons, <- logged_log in Hrun.
      destruct (Hobs i l) as (body & Hf & Hbody); [lia|done|].
      set (w0 := log (Notified c l r) w) in *.
      destruct (observer_run funs (body (VRef r)) w0 (Hbody _)) as [n1 Hn1]; [by exists r|].
      assert (Hrest : ∃ n', forEach funs n' c (S i) w0 = out).
      { apply (IH (S i) w0 j n out); try done; try lia.
        - intros i' l' Hi'. apply Hobs. lia.
        - replace (j - S i) with k by lia. exact Hrun. }
      destruct Hrest as [n2 Hn2].
      exists (S (S n1 `max` n2)). simpl. rewrite Hi. unfold getState. rewrite Hs.
      rewrite (call_more funs (S n1) _ l (VRef r) w0 w0); [|simpl; by rewrite Hf|lia].
      simpl. rewrite <- Hn2. apply (eval_more funs n2); [by rewrite Hn2|lia].
    + assert (Hrest : ∃ n', forEach funs n' c (S i) w = out).
      { apply (IH (S i) w j n out); try done; try lia.
        - intros i' l Hi'. apply Hobs. lia.
        - replace (j - S i) with k by lia. exact Hrun. }
      destruct Hrest as [n2 Hn2].
      exists (S n2). simpl. by rewrite Hi.
Qed.

End Stretch.

(** ** The registered functions in registry order *)

Lemma elem_of_live l ls : l ∈ live ls ↔ has l ls = true.
Proof.
  unfold live. rewrite list_elem_of_omap, has_true, <- list_elem_of_lookup. split.
  - intros (x & Hx & Hid). simpl in Hid. by subst x.
  - intros H. by exists (Some l).
Qed.

Lemma live_Set_add_new l ls : has l ls = false → live (Set_add l ls) = live ls ++ [l].
Proof. intros H. unfold Set_add, live. rewrite H. by rewrite omap_app. Qed.

Lemma live_Set_add_old l ls : has l ls = true → Set_add l ls = ls.
Proof. intros H. unfold Set_add. by rewrite H. Qed.

Lemma live_Set_delete l ls : live (Set_delete l ls) = filter (λ x, x ≠ l) (live ls).
Proof.
  unfold live, Set_delete. induction ls as [|x ls IH]; [done|].
  rewrite fmap_cons. destruct x as [x|]; [|exact IH].
  destruct (decide (x = l)) as [->|Hne].
  - rewrite decide_True by done. cbn [omap list_omap id].
    rewrite filter_cons_False by (intros H; by apply H). exact IH.
  - rewrite decide_False by congruence. cbn [omap list_omap id].
    rewrite filter_cons_True by done. f_equal. exact IH.
Qed.

Lemma filter_absent (l : FunId) (fs : list FunId) :
  l ∉ fs → filter (λ x, x ≠ l) fs = fs.
Proof.
  induction fs as [|x fs IH]; [done|]. intros [Hne Hfs]%not_elem_of_cons.
  rewrite filter_cons_True by congruence. by rewrite IH.
Qed.


(** ** One call over observers, exactly *)

Lemma removal_free_notices l c r fs e :
  (∀ l', e ≠ Unsubscribed l') → e ≠ Cleared → removal_free l (notices c r fs ++ [e]).
Proof.
  intros Hu Hc. unfold notices.
  split; intros [Hin|Hin]%elem_of_app.
  - apply elem_of_reverse, list_elem_of_fmap in Hin as (l' & Heq & _). discriminate Heq.
  - apply list_elem_of_singleton in Hin. by destruct (Hu l).
  - apply elem_of_reverse, list_elem_of_fmap in Hin as (l' & Heq & _). discriminate Heq.
  - apply list_elem_of_singleton in Hin. congruence.
Qed.

Section ExactCalls.

Variable funs : FunId → Fn.

Lemma setState_observed_exact ps w r delta :
  state w = Some r → resolve ps (deref w r) = inr delta →
  observed_only funs (listeners w) →
  ∃ fuel,
    setState funs fuel ps w
    = Returned (logged (notices (length (heap w)) (length (heap w)) (live (listeners w)))
                  (rebind delta r w)).
Proof.
  intros Hs Hres Hobs.
  destruct (update_cases ps w)
    as [[Hn _]|[(r' & e & Hs' & Hr' & _)|(r' & d & Hs' & Hr' & Hu)]];
    [congruence|congruence|].
  assert (r' = r) as -> by congruence. assert (d = delta) as -> by congruence.
  set (t := length (heap w)) in *. set (w1 := rebind delta r w) in *.
  set (w' := logged (notices t t (live (listeners w))) w1).
  destruct (forEach_skip_observers funs t t (length (listeners w1)) 0 w1
              (length (listeners w1)) 1 (Returned w')) as [n Hn]; try done; try lia.
  - by apply observed_only_between.
  - rewrite Nat.sub_0_r, drop_0, take_ge by done. simpl.
    by rewrite lookup_ge_None_2.
  - exists (S n). simpl. by rewrite Hu.
Qed.

Lemma since_rebind_logged evs delta r w :
  since w (logged evs (rebind delta r w)) = evs ++ [Merged delta (length (heap w))].
Proof. apply since_intro. simpl. by rewrite <- (assoc_L (++)). Qed.

(** The pass reaches entry [j] through observers and the function there
    ends it with [out]. *)
Lemma setState_through_observers ps w r delta j n out :
  state w = Some r → resolve ps (deref w r) = inr delta →
  j ≤ length (listeners w) → observers_between funs 0 j (listeners w) →
  forEach funs n (length (heap w)) j
    (logged (notices (length (heap w)) (length (heap w)) (live (take j (listeners w))))
       (rebind delta r w)) = out →
  out ≠ OutOfFuel →
  ∃ fuel, setState funs fuel ps w = out.
Proof.
  intros Hs Hres Hj Hobs Hrun Hfin.
  destruct (update_cases ps w)
    as [[Hn _]|[(r' & e & Hs' & Hr' & _)|(r' & d & Hs' & Hr' & Hu)]];
    [congruence|congruence|].
  assert (r' = r) as -> by congruence. assert (d = delta) as -> by congruence.
  destruct (forEach_skip_observers funs (length (heap w)) (length (heap w)) j 0
              (rebind delta r w) j n out) as [n' Hn']; try done; try lia.
  - by rewrite Nat.sub_0_r, drop_0.
  - exists (S n'). simpl. by rewrite Hu.
Qed.

End ExactCalls.

(** ** Replaying merges key by key *)

Lemma replay_keeps_keys base seg key :
  is_Some (base !! key) → is_Some (replay base seg !! key).
Proof.
  intros Hk. induction seg as [|e seg IH]; [done|]. destruct e; simpl; try done.
  destruct IH as [v Hv]. rewrite lookup_union, Hv.
  destruct (delta !! key); by eexists.
Qed.

Lemma replay_unmentioned base seg key :
  (∀ delta r, Merged delta r ∈ seg → delta !! key = None) →
  replay base seg !! key = base !! key.
Proof.
  induction seg as [|e seg IH]; [done|]. intros Hseg.
  assert (Htl : replay base seg !! key = base !! key).
  { apply IH. intros delta r Hin. eapply Hseg. by right. }
  destruct e; simpl; try done.
  rewrite lookup_union, (Hseg delta r) by (by left).
  rewrite Htl. by destruct (base !! key).
Qed.

(** ** One step of the pass *)

Lemma forEach_live funs n c i w l r :
  listeners w !! i = Some (Some l) → state w = Some r →
  forEach funs (S n) c i w
  = andThen (call funs n l (VRef r) (log (Notified c l r) w)) (forEach funs n c (S i)).
Proof. intros Hi Hs. cbn [forEach]. rewrite Hi. unfold getState. by rewrite Hs. Qed.


(** ** The hook's cells *)

Lemma foldl_reducer (x : Value) (new : list Value) :
  foldl reducer x (reverse new) = default x (head new).
Proof.
  destruct new as [|v new]; [done|]. rewrite reverse_cons, foldl_app. done.
Qed.

Lemma areHookInputsEqual_refl (deps : list Value) : areHookInputsEqual deps deps = true.
Proof.
  unfold areHookInputsEqual. induction deps as [|v deps IH]; [done|].
  simpl. by rewrite bool_decide_eq_true_2, IH.
Qed.

Lemma useCallback_again callback deps cell :
  useCallback callback deps (Some (useCallback callback deps cell))
  = useCallback callback deps cell.
Proof.
  unfold useCallback.
  destruct cell as [[prev [prevDeps|]]|], deps as [nextDeps|]; simpl;
    try (by rewrite areHookInputsEqual_refl); try done.
  destruct (areHookInputsEqual nextDeps prevDeps) eqn:Heq; simpl.
  - by rewrite Heq.
  - by rewrite areHookInputsEqual_refl.
Qed.

Lemma select_world sel r w v w' :
  select sel r w = inr (v, w') →
  hooks w' = hooks w ∧ state w' = state w ∧ listeners w' = listeners w ∧
  trace w' = trace w ∧ ∃ extra, heap w' = heap w ++ extra.
Proof.
  unfold select. destruct (sel r (deref w r)) as [x|o|e]; simpl; intros H; simplify_eq.
  - repeat split; try done. exists []. by rewrite app_nil_r.
  - repeat split; try done. by exists [o].
Qed.

Lemma select_logged sel r evs w :
  select sel r (logged evs w)
  = match select sel r w with
    | inl e => inl e
    | inr (v, w') => inr (v, logged evs w')
    end.
Proof. unfold select, deref. simpl. by destruct (sel r _). Qed.

Lemma pendingSlices_new fb hk new old :
  dispatched hk = new ++ old → length old = reduced fb →
  pendingSlices fb hk = reverse new.
Proof.
  intros Hd Hlen. unfold pendingSlices. rewrite Hd, length_app, <- Hlen.
  replace (length new + length old - length old) with (length new) by lia.
  by rewrite take_app_length.
Qed.

Lemma cells_kept_same w w' : hooks w' = hooks w → cells_kept w w'.
Proof. intros Heq h [s v d] Hh. exists []. by rewrite Heq. Qed.

Lemma cells_kept_trans w1 w2 w3 : cells_kept w1 w2 → cells_kept w2 w3 → cells_kept w1 w3.
Proof.
  intros H12 H23 h hk Hh. destruct (H12 h hk Hh) as [new1 H1].
  destruct (H23 h _ H1) as [new2 H2]. simpl in H2.
  exists (new2 ++ new1). by rewrite <- (assoc_L (++)).
Qed.

Lemma hookListener_cells h w w' :
  world_of (hookListener h w) = Some w' → cells_kept w w'.
Proof.
  unfold hookListener.
  destruct (hooks w !! h) as [hk|] eqn:Hh; simpl; [|intros [= <-]; by apply cells_kept_same].
  destruct (state w) as [r|]; simpl; [|intros [= <-]; by apply cells_kept_same].
  destruct (select (selectStateRef hk) r w) as [e|[v w1]] eqn:Hsel; simpl;
    [intros [= <-]; by apply cells_kept_same|].
  apply select_world in Hsel as (Hhooks & _).
  destruct (shallowEqual _ _ _); simpl; intros [= <-]; [by apply cells_kept_same|].
  intros h' hk' Hh'. unfold dispatch. simpl. rewrite Hhooks.
  destruct (decide (h' = h)) as [->|Hne].
  - rewrite lookup_insert_eq. assert (hk' = hk) as -> by congruence. by exists [v].
  - rewrite lookup_insert_ne by done. exists []. rewrite Hh'. by destruct hk'.
Qed.

Section EvaluatorCells.

Variable funs : FunId → Fn.

Lemma eval_cells (fuel : nat) :
  (∀ p w w', world_of (run funs fuel p w) = Some w' → cells_kept w w') ∧
  (∀ ps w w', world_of (setState funs fuel ps w) = Some w' → cells_kept w w') ∧
  (∀ c i w w', world_of (forEach funs fuel c i w) = Some w' → cells_kept w w') ∧
  (∀ f arg w w', world_of (call funs fuel f arg w) = Some w' → cells_kept w w').
Proof.
  induction fuel as [|n (IHrun & IHset & IHeach & IHcall)];
    [repeat split; intros; discriminate|].
  assert (Hseq : ∀ (o : Outcome) k w w',
    (∀ w1, world_of o = Some w1 → cells_kept w w1) →
    (∀ w1 w2, world_of (k w1) = Some w2 → cells_kept w1 w2) →
    world_of (andThen o k) = Some w' → cells_kept w w').
  { intros o k w w' Ho Hk H.
    apply andThen_world in H as [[e ->]|(w1 & -> & H)]; [by apply Ho|].
    eapply cells_kept_trans; [by apply Ho|by apply Hk]. }
  repeat split.
  - intros p w w'. destruct p; simpl.
    + intros [= <-]; by apply cells_kept_same.
    + intros [= <-]; by apply cells_kept_same.
    + unfold getState. destruct (state w); simpl; [apply IHrun|].
      intros [= <-]; by apply cells_kept_same.
    + apply IHrun.
    + apply Hseq; [apply IHset | apply IHrun].
    + intros H. apply IHrun in H. eapply cells_kept_trans; [|exact H].
      by apply cells_kept_same.
    + intros H. apply IHrun in H. eapply cells_kept_trans; [|exact H].
      by apply cells_kept_same.
    + apply Hseq; [|apply IHrun]. intros w1.
      destruct (destroy_cases w) as [[_ ->]|(r & Hs & ->)]; simpl; intros [= <-];
        by apply cells_kept_same.
    + apply Hseq; [apply IHcall | apply IHrun].
  - intros ps w w'. simpl.
    destruct (update_cases ps w)
      as [[_ ->]|[(r & e & _ & _ & ->)|(r & d & Hs & _ & ->)]]; simpl.
    + intros [= <-]; by apply cells_kept_same.
    + intros [= <-]; by apply cells_kept_same.
    + intros H. apply IHeach in H. eapply cells_kept_trans; [|exact H].
      by apply cells_kept_same.
  - intros c i w w'. simpl.
    destruct (listeners w !! i) as [[l|]|] eqn:Hi; simpl.
    + unfold getState. destruct (state w) as [r|] eqn:Hs; simpl;
        [|intros [= <-]; by apply cells_kept_same].
      intros H. eapply cells_kept_trans;
        [apply (cells_kept_same w (log (Notified c l r) w)); done|].
      revert H. apply Hseq; [apply (IHcall l (VRef r)) | apply IHeach].
    + apply IHeach.
    + intros [= <-]; by apply cells_kept_same.
  - intros f arg w w'. simpl. destruct (funs f) as [body|h].
    + apply IHrun.
    + apply hookListener_cells.
Qed.

End EvaluatorCells.

(** ** A pass that reaches the listener of a hook through observers *)

Lemma logged_logged a b w : logged a (logged b w) = logged (a ++ b) w.
Proof. unfold logged. simpl. by rewrite <- (assoc_L (++)). Qed.

Lemma notices_app c r xs ys :
  notices c r (xs ++ ys) = notices c r ys ++ notices c r xs.
Proof. unfold notices. by rewrite fmap_app, reverse_app. Qed.

Lemma live_split ls j l :
  ls !! j = Some (Some l) → live ls = live (take j ls) ++ l :: live (drop (S j) ls).
Proof.
  intros Hj. rewrite <- (take_drop j ls) at 1. rewrite (drop_S _ _ _ Hj).
  unfold live. by rewrite omap_app.
Qed.

Section HookPass.

Variable funs : FunId → Fn.

Lemma call_hook n f arg w h :
  funs f = HookListener h → call funs (S n) f arg w = hookListener h w.
Proof. intros Hf. cbn [call]. by rewrite Hf. Qed.

Lemma forEach_observers_to_end c r i w :
  i ≤ length (listeners w) → state w = Some r →
  observers_between funs i (length (listeners w)) (listeners w) →
  ∃ n, forEach funs n c i w
       = Returned (logged (notices c r (live (drop i (listeners w)))) w).
Proof.
  intros Hi Hs Hobs.
  apply (forEach_skip_observers funs c r (length (listeners w) - i) i w
           (length (listeners w)) 1); try done.
  rewrite take_ge by (rewrite length_drop; lia).
  simpl. by rewrite lookup_ge_None_2.
Qed.

Lemma setState_hook_pass ps w r delta j l h hk v w' :
  state w = Some r → resolve ps (deref w r) = inr delta →
  listeners w !! j = Some (Some l) → funs l = HookListener h →
  (∀ i l', i ≠ j → listeners w !! i = Some (Some l') →
     ∃ body, funs l' = UserFn body ∧ ∀ arg, observer (body arg)) →
  hooks w !! h = Some hk →
  select (selectStateRef hk) (length (heap w)) (rebind delta r w) = inr (v, w') →
  ∃ fuel, setState funs fuel ps w
    = Returned (logged (notices (length (heap w)) (length (heap w)) (live (listeners w)))
        (if shallowEqual (heap w') (stateSliceRef hk) v then w'
         else dispatch h hk v w')).
Proof.
  intros Hs Hres Hj Hf Hobs Hh Hsel.
  set (t := length (heap w)) in *. set (w1 := rebind delta r w) in *.
  set (W := if shallowEqual (heap w') (stateSliceRef hk) v then w'
            else dispatch h hk v w').
  set (pre := notices t t (live (take j (listeners w)))).
  destruct (select_world _ _ _ _ _ Hsel) as (Hhooks & Hstate & Hls & _).
  assert (HWls : listeners W = listeners w).
  { unfold W. by destruct (shallowEqual _ _ _). }
  assert (HWs : state W = Some t).
  { unfold W. by destruct (shallowEqual _ _ _). }
  set (Wj := logged (Notified t l t :: pre) W).
  assert (Hcall : ∀ n, call funs (S n) l (VRef t) (log (Notified t l t) (logged pre w1))
                       = Returned Wj).
  { intros n. rewrite (call_hook _ _ _ _ h Hf). unfold hookListener.
    change (hooks (log (Notified t l t) (logged pre w1))) with (hooks w).
    rewrite Hh. change (state (log (Notified t l t) (logged pre w1))) with (Some t).
    change (log (Notified t l t) (logged pre w1)) with (logged (Notified t l t :: pre) w1).
    cbv iota. rewrite select_logged, Hsel.
    change (heap (logged (Notified t l t :: pre) w')) with (heap w').
    unfold Wj, W. by destruct (shallowEqual _ _ _). }
  destruct (forEach_observers_to_end t t (S j) Wj) as [n2 Hn2].
  { apply lookup_lt_Some in Hj. simpl. rewrite HWls. lia. }
  { exact HWs. }
  { intros i l' Hi Hl'. apply (Hobs i l'); [lia|].
    simpl in Hl'. by rewrite HWls in Hl'. }
  apply (setState_through_observers funs ps w r delta j (S (S n2))); try done.
  - apply lookup_lt_Some in Hj. lia.
  - intros i l' Hi Hl'. apply (Hobs i l'); [lia|done].
  - fold t. fold w1. fold pre.
    rewrite (forEach_live funs (S n2) t j (logged pre w1) l t) by done.
    rewrite Hcall. cbn [andThen].
    rewrite (forEach_more funs n2 (S n2) _ _ _ _ Hn2) by lia.
    f_equal. unfold Wj. rewrite logged_logged. f_equal.
    simpl. rewrite HWls.
    rewrite (live_split (listeners w) j l Hj), notices_app, notices_cons.
    by rewrite <- (assoc_L (++)).
Qed.

End HookPass.

(** ** Renders and commits *)

Lemma useCallback_changed callback deps cell :
  (useCallback callback deps (Some cell)).1 ≠ cell.1 →
  useCallback callback deps (Some cell) = (callback, deps).
Proof.
  unfold useCallback. destruct cell as [prev [prevDeps|]], deps as [nextDeps|]; try done.
  destruct (areHookInputsEqual nextDeps prevDeps); [|done]. simpl. congruence.
Qed.

Lemma pendingSlices_none fb hk :
  reduced fb = length (dispatched hk) → pendingSlices fb hk = [].
Proof. intros H. unfold pendingSlices. by rewrite H, Nat.sub_diag. Qed.

Lemma pendingSlices_pushed fb hk v d :
  dispatched hk = v :: d → reduced fb ≤ length d →
  ∃ rest, pendingSlices fb hk = reverse (v :: rest).
Proof.
  intros Hd Hle. exists (take (length d - reduced fb) d).
  apply (pendingSlices_new fb hk _ (drop (length d - reduced fb) d)).
  - by rewrite Hd, <- app_comm_cons, take_drop.
  - rewrite length_drop. lia.
Qed.

Lemma commitRefs_lookup h sel slice w :
  hooks (commitRefs h sel slice w) !! h
  = Some (mkHook sel slice (default [] (dispatched <$> hooks w !! h))).
Proof. unfold commitRefs. simpl. by rewrite lookup_insert_eq. Qed.

Lemma dispatched_of_commitRefs h sel slice w :
  dispatched_of h (commitRefs h sel slice w) = dispatched_of h w.
Proof. unfold dispatched_of. rewrite commitRefs_lookup. simpl. by destruct (hooks w !! h). Qed.

(** ** Passes that reach the hook, and the board scenario *)

Lemma board_in_sync w d :
  hooks w !! 0 = Some (mkHook (board_sels 0) (VNum 0) d) →
  in_sync board_sels 0 board_fiber w (VNum 0).
Proof. intros Hh. eexists. split; [exact Hh|]. simpl. repeat split. lia. Qed.

Lemma board_observers ls :
  ls = [Some 1; Some 0] → observers_except board_funs 1 ls.
Proof.
  intros -> i l Hi Hl. destruct i as [|[|i2]]; [|done|done].
  simpl in Hl. simplify_eq. eexists. split; [reflexivity|]. intros arg. constructor.
Qed.

Lemma useStore_pushed sels h selector deps fb w r hk v d :
  state w = Some r → hooks w !! h = Some hk →
  (useCallback (stateSelector selector) deps (Some (callbackCell fb))).1
    = selectStateRefIs fb →
  dispatched hk = v :: d → reduced fb ≤ length d →
  ∃ fb', useStore sels h selector deps (Some fb) w = inr (v, fb', w).
Proof.
  intros Hs Hh Hmemo Hd Hle. unfold useStore. rewrite Hs, Hh.
  cbn [fmap option_fmap option_map]. rewrite decide_True by exact Hmemo.
  destruct (pendingSlices_pushed fb hk v d Hd Hle) as [rest ->].
  rewrite foldl_reducer. by eexists.
Qed.

Section HookPasses.

Variable funs : FunId → Fn.

(** The cells of the hook after a pass that reached its listener. *)
Lemma setState_hook_cells ps w r delta j l h hk v wv :
  state w = Some r → resolve ps (deref w r) = inr delta →
  listeners w !! j = Some (Some l) → funs l = HookListener h →
  observers_except funs j (listeners w) →
  hooks w !! h = Some hk →
  select (selectStateRef hk) (length (heap w)) (rebind delta r w) = inr (v, wv) →
  ∃ fuel w', setState funs fuel ps w = Returned w' ∧
    state w' = Some (length (heap w)) ∧ listeners w' = listeners w ∧
    (∃ extra, heap w' = heap w ++ (delta ∪ deref w r) :: extra) ∧
    hooks w' = (if shallowEqual (heap wv) (stateSliceRef hk) v then hooks w
                else <[h := mkHook (selectStateRef hk) (stateSliceRef hk)
                              (v :: dispatched hk)]> (hooks w)).
Proof.
  intros Hs Hres Hj Hf Hobs Hh Hsel.
  destruct (setState_hook_pass funs ps w r delta j l h hk v wv) as [fuel Hrun]; try done.
  destruct (select_world _ _ _ _ _ Hsel) as (Hhooks & Hstate & Hls & _ & extra & Hheap).
  eexists fuel, _. split; [exact Hrun|].
  destruct (shallowEqual (heap wv) (stateSliceRef hk) v); simpl.
  - rewrite Hstate, Hls, Hhooks, Hheap. repeat split; try done.
    exists extra. simpl. by rewrite <- (assoc_L (++)).
  - rewrite Hstate, Hls, Hhooks, Hheap. repeat split; try done.
    exists extra. simpl. by rewrite <- (assoc_L (++)).
Qed.

End HookPasses.

(** * The claims *)



(** C2, amended.  Let a listener be registered when a [setState] call
    begins.  (i) If the call returns and the listener was neither
    unsubscribed nor cleared by [destroy] while it ran, the listener was
    invoked exactly once by the pass of that call; on every invocation
    during the call its argument is the value [state] has at that
    moment; and when no listener rebinds [state] during the call (no
    re-entrant [setState], no [destroy]), that value is the state the call
    produced.  (ii) If the registered listeners only observe and the
    partial resolves, the call returns, the listener is invoked exactly
    once, and every notification it receives is from that call and
    carries the state the call produced. *)
Theorem setState_notifies_registered_listener_once funs ps w l :
  wf w → has l (listeners w) = true →
  (∀ fuel w', setState funs fuel ps w = Returned w' → removal_free l (since w w') →
     invocations (length (heap w)) l (since w w') = 1 ∧
     (∀ post c s pre, since w w' = post ++ Notified c l s :: pre →
        state_after (state w) pre = Some s) ∧
     (only_rebind (length (heap w)) (since w w') →
        ∀ s, Notified (length (heap w)) l s ∈ since w w' → s = length (heap w))) ∧
  (observed_only funs (listeners w) →
   ∀ r delta, state w = Some r → resolve ps (deref w r) = inr delta →
     ∃ fuel w', setState funs fuel ps w = Returned w' ∧
       invocations (length (heap w)) l (since w w') = 1 ∧
       ∀ c s, Notified c l s ∈ since w w' →
              c = length (heap w) ∧ s = length (heap w)).
Proof.
  intros Hwf Hl.
  assert (Honce : ∀ fuel w', setState funs fuel ps w = Returned w' →
            removal_free l (since w w') →
            invocations (length (heap w)) l (since w w') = 1).
  { intros fuel w' Hrun Hfree. eapply setState_invocations; eauto.
    eapply registration_survives; eauto. by rewrite Hrun. }
  split.
  - intros fuel w' Hrun Hfree.
    assert (Hsteps : steps anything w w').
    { eapply setState_effects. by rewrite Hrun. }
    split; [by eapply Honce|]. split.
    + intros post c s pre Heq. eapply steps_seen_current; eauto.
    + intros Honly s Hin.
      destruct (setState_returned _ _ _ _ _ Hrun)
        as (n & r & d & _ & _ & _ & _ & _ & Hsince).
      apply list_elem_of_split in Hin as (post & pre & Heq).
      pose proof (steps_seen_current _ _ _ _ _ _ _ _ Hsteps Heq) as Hseen.
      rewrite (state_after_only (length (heap w))) in Hseen.
      * by injection Hseen.
      * intros e r' He. apply Honly. rewrite Heq. apply elem_of_app. right. by right.
      * exists (Merged d (length (heap w))). split; [|done].
        rewrite Hsince in Heq. symmetry in Heq.
        by apply last_event_in_suffix in Heq.
  - intros Hobs r delta Hs Hres.
    destruct (setState_observed funs ps w r delta Hs Hres Hobs)
      as (n & w' & Hrun & _ & _ & _ & Hplain).
    exists n, w'. split; [done|]. split.
    + eapply Honce; [done|]. by eapply plain_call_removal_free.
    + intros c s Hin. destruct (Hplain _ Hin) as [?|[l' Heq]]; [done|].
      by injection Heq as -> _ ->.
Qed.

Lemma setState_notifies_once_witness :
  wf counter_watched ∧ has 1 (listeners counter_watched) = true ∧
  setState counter_funs 5 set_count_5 counter_watched = Returned counter_watched_updated ∧
  removal_free 1 (since counter_watched counter_watched_updated) ∧
  invocations (length (heap counter_watched)) 1
    (since counter_watched counter_watched_updated) = 1 ∧
  (∀ post c s pre,
     since counter_watched counter_watched_updated = post ++ Notified c 1 s :: pre →
     state_after (state counter_watched) pre = Some s) ∧
  (only_rebind (length (heap counter_watched))
     (since counter_watched counter_watched_updated) →
   ∀ s, Notified (length (heap counter_watched)) 1 s
          ∈ since counter_watched counter_watched_updated →
        s = length (heap counter_watched)).
Proof.
  assert (H1 : wf counter_watched) by (apply wfb_wf; vm_compute; reflexivity).
  assert (H2 : has 1 (listeners counter_watched) = true) by (vm_compute; reflexivity).
  assert (H3 : setState counter_funs 5 set_count_5 counter_watched
               = Returned counter_watched_updated) by (vm_compute; reflexivity).
  assert (H4 : removal_free 1 (since counter_watched counter_watched_updated)).
  { apply (bool_decide_unpack _). vm_compute. exact I. }
  split; [exact H1|]. split; [exact H2|]. split; [exact H3|]. split; [exact H4|].
  exact (proj1 (setState_notifies_registered_listener_once counter_funs set_count_5
                  counter_watched 1 H1 H2) 5 counter_watched_updated H3 H4).
Defined.

(** C2 as worded fails on a re-entrant listener: in the pass of the outer
    call (which produced object 1), function 1 is handed object 2, the
    state produced by the call that function 0 made meanwhile. *)
Lemma reentrant_listener_sees_later_state :
  ¬ sees_state_of_notifying_call reentrant_funs 12
      (Delta {[ "count"%string := VNum 1 ]}) reentrant_store.
Proof.
  intros H.
  assert (Hrun : setState reentrant_funs 12 (Delta {[ "count"%string := VNum 1 ]})
                   reentrant_store
                 = Returned (after (setState reentrant_funs 12
                     (Delta {[ "count"%string := VNum 1 ]}) reentrant_store)))
    by (vm_compute; reflexivity).
  assert (Hne : 2 ≠ 1) by lia. apply Hne, (H _ Hrun 1).
  - vm_compute; reflexivity.
  - apply (bool_decide_unpack _). vm_compute. exact I.
  - apply (bool_decide_unpack _). vm_compute. exact I.
Qed.



(** C4, amended.  The pass iterates the live registry, not a snapshot.
    If the callbacks only add and remove listeners (or call [destroy]),
    the pass never ends with an exception.  When a [setState] call
    returns, every listener that is registered at that point and was not
    removed at any time during the call -- whether it was registered
    before the call or added during the pass -- has been invoked exactly
    once by the pass of that call: it was neither skipped nor invoked
    twice. *)
Theorem pass_tolerates_registry_changes funs fuel ps w :
  wf w →
  (structural_only funs → is_Some (state w) →
     ∀ c i e w', forEach funs fuel c i w ≠ Threw e w') ∧
  (∀ w' l, setState funs fuel ps w = Returned w' →
     has l (listeners w') = true → removal_free l (since w w') →
     invocations (length (heap w)) l (since w w') = 1).
Proof.
  intros Hwf. split.
  - intros Hfuns Hs c i e w' Hthrew.
    destruct (structural_never_throws funs Hfuns fuel) as (_ & Heach & _).
    specialize (Heach c i w Hs). by rewrite Hthrew in Heach.
  - intros w' l Hrun Hl Hfree. by eapply setState_invocations.
Qed.

Lemma pass_tolerates_added_listener_witness :
  wf adding_store ∧
  structural_only adding_funs ∧ is_Some (state adding_store) ∧
  (∀ c i e w', forEach adding_funs 6 c i adding_store ≠ Threw e w') ∧
  setState adding_funs 6 set_count_1 adding_store = Returned adding_store_updated ∧
  has 2 (listeners adding_store) = false ∧
  has 2 (listeners adding_store_updated) = true ∧
  removal_free 2 (since adding_store adding_store_updated) ∧
  invocations (length (heap adding_store)) 2 (since adding_store adding_store_updated) = 1.
Proof.
  assert (H1 : wf adding_store) by (apply wfb_wf; vm_compute; reflexivity).
  assert (H2 : structural_only adding_funs).
  { intros f. eexists. split; [reflexivity|]. intros arg. by destruct f. }
  assert (H3 : is_Some (state adding_store)) by (by eexists).
  assert (H4 : setState adding_funs 6 set_count_1 adding_store
               = Returned adding_store_updated) by (vm_compute; reflexivity).
  assert (H5 : has 2 (listeners adding_store_updated) = true) by (vm_compute; reflexivity).
  assert (H6 : removal_free 2 (since adding_store adding_store_updated)).
  { apply (bool_decide_unpack _). vm_compute. exact I. }
  pose proof (pass_tolerates_registry_changes adding_funs 6 set_count_1 adding_store H1)
    as [Ha Hb].
  split; [exact H1|]. split; [exact H2|]. split; [exact H3|].
  split; [exact (Ha H2 H3)|]. split; [exact H4|].
  split; [vm_compute; reflexivity|]. split; [exact H5|]. split; [exact H6|].
  exact (Hb _ 2 H4 H5 H6).
Defined.

(** C4 as worded fails when a listener is removed and added back during
    the pass: function 0, already invoked, is unsubscribed and subscribed
    again by function 1, lands in a new entry at the end of the registry,
    and is invoked a second time by the same pass. *)
Lemma resubscribed_listener_invoked_twice :
  ¬ never_invoked_twice resubscribing_funs 8 set_count_1 resubscribing_store.
Proof.
  intros H.
  assert (Hrun : setState resubscribing_funs 8 set_count_1 resubscribing_store
                 = Returned (after (setState resubscribing_funs 8 set_count_1
                                      resubscribing_store)))
    by (vm_compute; reflexivity).
  specialize (H _ Hrun 0). vm_compute in H. lia.
Qed.

(** C5.  The function returned by [subscribe(l)] removes [l] and no other
    listener; calling it again changes nothing in the store and does not
    throw; in any evaluation started after the call, [l] is not notified
    unless it has been subscribed again; and within any evaluation at all
    -- in particular when the call is made by another listener in the
    middle of a pass -- no notification of [l] follows the call unless a
    [subscribe(l)] lies in between. *)
Theorem unsubscribe_silences_listener funs l w :
  has l (listeners (unsubscribe l w)) = false ∧
  (∀ j l', l' ≠ l →
     listeners (unsubscribe l w) !! j = Some (Some l') ↔ listeners w !! j = Some (Some l')) ∧
  (listeners (unsubscribe l (unsubscribe l w)) = listeners (unsubscribe l w) ∧
   heap (unsubscribe l (unsubscribe l w)) = heap (unsubscribe l w) ∧
   state (unsubscribe l (unsubscribe l w)) = state (unsubscribe l w) ∧
   hooks (unsubscribe l (unsubscribe l w)) = hooks (unsubscribe l w)) ∧
  (∀ fuel p, run funs (S fuel) (Unsubscribe l p) (unsubscribe l w)
             = run funs fuel p (unsubscribe l (unsubscribe l w))) ∧
  (∀ fuel p w', world_of (run funs fuel p (unsubscribe l w)) = Some w' →
     quiet_until_subscribed l (since (unsubscribe l w) w')) ∧
  (∀ fuel p w0 w', world_of (run funs fuel p w0) = Some w' →
     silenced_after_removal l (since w0 w')).
Proof.
  split; [apply Set_delete_has|]. split; [intros j l'; apply Set_delete_other|].
  split; [by repeat split; simpl; rewrite ?Set_delete_idempotent|].
  split; [done|]. split.
  - intros fuel p w' Hrun. eapply steps_quiet; [by eapply run_effects|].
    apply Set_delete_has.
  - intros fuel p w0 w' Hrun. eapply steps_silenced. by eapply run_effects.
Qed.

Lemma unsubscribe_mid_pass_witness :
  world_of (run silencing_funs 7 (SetState set_count_1 Done) silencing_store)
    = Some silencing_store_updated ∧
  has 1 (listeners silencing_store) = true ∧
  Unsubscribed 1 ∈ since silencing_store silencing_store_updated ∧
  invocations (length (heap silencing_store)) 1
    (since silencing_store silencing_store_updated) = 0 ∧
  silenced_after_removal 1 (since silencing_store silencing_store_updated).
Proof.
  assert (H1 : world_of (run silencing_funs 7 (SetState set_count_1 Done) silencing_store)
               = Some silencing_store_updated) by (vm_compute; reflexivity).
  split; [exact H1|]. split; [vm_compute; reflexivity|].
  split; [apply (bool_decide_unpack _); vm_compute; exact I|].
  split; [vm_compute; reflexivity|].
  exact (proj2 (proj2 (proj2 (proj2 (proj2
           (unsubscribe_silences_listener silencing_funs 1 silencing_store)))))
         7 (SetState set_count_1 Done) silencing_store silencing_store_updated H1).
Defined.



(** C7.  However a [setState] call ends, it has modified no object that
    existed when it began -- in particular the object that was the state;
    and when it returns, [state] refers to an object that did not exist
    before the call. *)
Theorem setState_never_mutates_previous_state funs fuel ps w w' r :
  wf w → state w = Some r → world_of (setState funs fuel ps w) = Some w' →
  (∀ r0 o, heap w !! r0 = Some o → heap w' !! r0 = Some o) ∧
  deref w' r = deref w r ∧
  (setState funs fuel ps w = Returned w' →
   ∃ r', state w' = Some r' ∧ r' ≠ r ∧ heap w !! r' = None).
Proof.
  intros Hwf Hs Hend.
  assert (Hsteps : steps anything w w') by (by eapply setState_effects).
  pose proof (wf_state _ Hwf r Hs) as Hr.
  split; [intros r0 o; by eapply steps_heap|].
  split; [by eapply steps_deref|]. intros Hrun.
  destruct (setState_returned _ _ _ _ _ Hrun) as (n & r1 & d & _ & _ & _ & _ & Hrest & _).
  destruct (steps_state _ _ _ Hrest) as [Hsame|(r' & Hr' & Hge)].
  - exists (length (heap w)). rewrite Hsame. split; [done|]. split; [lia|].
    by apply lookup_ge_None_2.
  - exists r'. simpl in Hge. rewrite length_app in Hge. simpl in Hge.
    split; [done|]. split; [lia|]. apply lookup_ge_None_2. lia.
Qed.

Lemma setState_never_mutates_witness :
  wf counter_watched ∧ state counter_watched = Some 0 ∧
  world_of (setState counter_funs 5 set_count_5 counter_watched)
    = Some counter_watched_updated ∧
  (∀ r0 o, heap counter_watched !! r0 = Some o →
           heap counter_watched_updated !! r0 = Some o) ∧
  deref counter_watched_updated 0 = deref counter_watched 0 ∧
  (setState counter_funs 5 set_count_5 counter_watched = Returned counter_watched_updated →
   ∃ r', state counter_watched_updated = Some r' ∧ r' ≠ 0 ∧
         heap counter_watched !! r' = None).
Proof.
  assert (H1 : wf counter_watched) by (apply wfb_wf; vm_compute; reflexivity).
  assert (H2 : state counter_watched = Some 0) by (vm_compute; reflexivity).
  assert (H3 : world_of (setState counter_funs 5 set_count_5 counter_watched)
               = Some counter_watched_updated) by (vm_compute; reflexivity).
  split; [exact H1|]. split; [exact H2|]. split; [exact H3|].
  exact (setState_never_mutates_previous_state counter_funs 5 set_count_5
           counter_watched counter_watched_updated 0 H1 H2 H3).
Defined.

(** C8.  Subscribing the same function a second time leaves the registry
    as it was after the first time, with one live entry for it; a
    [setState] call that returns, during which the function is not
    removed, invokes it exactly once -- and when the registered listeners
    only observe and the partial resolves, the call does return and
    invokes it exactly once; one call of the unsubscribe function leaves
    it unregistered. *)
Theorem duplicate_subscription_collapses funs l w :
  wf w →
  listeners (subscribe l (subscribe l w)) = listeners (subscribe l w) ∧
  (∃ j, listeners (subscribe l (subscribe l w)) !! j = Some (Some l) ∧
        ∀ j', listeners (subscribe l (subscribe l w)) !! j' = Some (Some l) → j' = j) ∧
  (∀ fuel ps w',
     setState funs fuel ps (subscribe l (subscribe l w)) = Returned w' →
     removal_free l (since (subscribe l (subscribe l w)) w') →
     invocations (length (heap w)) l (since (subscribe l (subscribe l w)) w') = 1) ∧
  (observed_only funs (listeners (subscribe l w)) →
   ∀ ps r delta, state w = Some r → resolve ps (deref w r) = inr delta →
     ∃ fuel w',
       setState funs fuel ps (subscribe l (subscribe l w)) = Returned w' ∧
       invocations (length (heap w)) l (since (subscribe l (subscribe l w)) w') = 1) ∧
  has l (listeners (unsubscribe l (subscribe l (subscribe l w)))) = false.
Proof.
  intros Hwf.
  assert (Hwf2 : wf (subscribe l (subscribe l w))).
  { eapply (atom_wf anything), (atom_wf anything); [apply atom_subscribe..|exact Hwf]. }
  assert (Hhas : has l (listeners (subscribe l (subscribe l w))) = true)
    by apply Set_add_has.
  assert (Honce : ∀ fuel ps w',
     setState funs fuel ps (subscribe l (subscribe l w)) = Returned w' →
     removal_free l (since (subscribe l (subscribe l w)) w') →
     invocations (length (heap w)) l (since (subscribe l (subscribe l w)) w') = 1).
  { intros fuel ps w' Hrun Hfree.
    apply (setState_invocations funs fuel ps (subscribe l (subscribe l w)) w' l Hwf2 Hrun);
      [|done].
    eapply registration_survives; eauto. by rewrite Hrun. }
  split; [apply Set_add_idempotent|]. split; [|split; [exact Honce|split]].
  - apply has_true in Hhas as [j Hj]. exists j. split; [done|].
    intros j' Hj'. by eapply (wf_listeners _ Hwf2).
  - intros Hobs ps r delta Hs Hres.
    destruct (setState_observed funs ps (subscribe l (subscribe l w)) r delta Hs Hres)
      as (n & w' & Hrun & _ & _ & _ & Hplain).
    { simpl. by rewrite Set_add_idempotent. }
    exists n, w'. split; [done|]. eapply Honce; [done|].
    by eapply plain_call_removal_free.
  - apply Set_delete_has.
Qed.

Lemma duplicate_subscription_witness :
  wf counter_watched ∧
  listeners (subscribe 3 (subscribe 3 counter_watched))
    = listeners (subscribe 3 counter_watched) ∧
  (∃ j, listeners (subscribe 3 (subscribe 3 counter_watched)) !! j = Some (Some 3) ∧
        ∀ j', listeners (subscribe 3 (subscribe 3 counter_watched)) !! j' = Some (Some 3) →
              j' = j) ∧
  (∀ fuel ps w',
     setState counter_funs fuel ps (subscribe 3 (subscribe 3 counter_watched)) = Returned w' →
     removal_free 3 (since (subscribe 3 (subscribe 3 counter_watched)) w') →
     invocations (length (heap counter_watched)) 3
       (since (subscribe 3 (subscribe 3 counter_watched)) w') = 1) ∧
  (observed_only counter_funs (listeners (subscribe 3 counter_watched)) →
   ∀ ps r delta, state counter_watched = Some r →
     resolve ps (deref counter_watched r) = inr delta →
     ∃ fuel w',
       setState counter_funs fuel ps (subscribe 3 (subscribe 3 counter_watched))
         = Returned w' ∧
       invocations (length (heap counter_watched)) 3
         (since (subscribe 3 (subscribe 3 counter_watched)) w') = 1) ∧
  has 3 (listeners (unsubscribe 3 (subscribe 3 (subscribe 3 counter_watched)))) = false.
Proof.
  assert (H1 : wf counter_watched) by (apply wfb_wf; vm_compute; reflexivity).
  split; [exact H1|]. exact (duplicate_subscription_collapses counter_funs 3 counter_watched H1).
Defined.



(** C10.  While the initializer runs, [state] is not initialised: a
    [get] or a [set] made at the start of the initializer makes [create]
    throw a ReferenceError -- for [set] before the updater or any listener
    is called -- and the same holds at whatever point of the initializer
    they are called, since every world the initializer can reach has
    [state] uninitialised.  Once [create] has returned, [getState]
    returns the initializer's object and [setState] gets past reading
    [state]. *)
Theorem store_unusable_inside_initializer funs :
  (∀ fuel k o, create funs (S fuel) (GetState k) o = Threw ReferenceError world0) ∧
  (∀ fuel ps k o, ∃ w,
     create funs (S (S fuel)) (SetState ps k) o = Threw ReferenceError w ∧
     state w = None ∧ listeners w = [] ∧ trace w = []) ∧
  (∀ fuel p w, world_of (run funs fuel p world0) = Some w →
     getState w = inl ReferenceError ∧
     ∀ n ps, ∃ w', setState funs (S n) ps w = Threw ReferenceError w') ∧
  (∀ fuel body o w, create funs fuel body o = Returned w →
     ∃ r, getState w = inr r ∧ deref w r = o ∧
          ∀ delta, update (Delta delta) w = inr (length (heap w), rebind delta r w)).
Proof.
  split; [done|]. split; [by eexists|]. split.
  - intros fuel p w Hrun.
    assert (Hs : state w = None).
    { eapply steps_uninitialised; [by eapply run_effects|done]. }
    split; [unfold getState; by rewrite Hs|]. intros n ps. simpl.
    destruct (update_cases ps w) as [[_ ->]|[(r & e & Hs' & _)|(r & d & Hs' & _)]];
      [by eexists|congruence..].
  - intros fuel body o w Hret.
    destruct (create_returned _ _ _ _ _ Hret) as (_ & r & Hs & Hd).
    exists r. split; [unfold getState; by rewrite Hs|]. split; [done|]. intros delta.
    destruct (update_cases (Delta delta) w) as [[Hn _]|[(r' & e & Hs' & Hr' & _)|(r' & d & Hs' & Hr' & Hu)]];
      simpl in *; simplify_eq. done.
Qed.

Lemma store_usable_after_create_witness :
  create counter_funs 1 Done counter_initial
    = Returned (after (create counter_funs 1 Done counter_initial)) ∧
  ∃ r, getState (after (create counter_funs 1 Done counter_initial)) = inr r ∧
       deref (after (create counter_funs 1 Done counter_initial)) r = counter_initial ∧
       ∀ delta, update (Delta delta) (after (create counter_funs 1 Done counter_initial))
                = inr (length (heap (after (create counter_funs 1 Done counter_initial))),
                       rebind delta r (after (create counter_funs 1 Done counter_initial))).
Proof.
  assert (H1 : create counter_funs 1 Done counter_initial
               = Returned (after (create counter_funs 1 Done counter_initial)))
    by (vm_compute; reflexivity).
  split; [exact H1|].
  exact (proj2 (proj2 (proj2 (store_unusable_inside_initializer counter_funs)))
           1 Done counter_initial _ H1).
Defined.

(** * Further properties of the store *)

(** X1.  When the registered listeners only observe and the partial
    resolves, [setState] returns after notifying the registered
    functions once each, in registry order (the order of first
    subscription), each with the new state; apart from the new state
    object and these log entries the world is as before. *)
Theorem observers_notified_in_registry_order funs ps w r delta :
  state w = Some r → resolve ps (deref w r) = inr delta →
  observed_only funs (listeners w) →
  ∃ fuel w',
    setState funs fuel ps w = Returned w' ∧
    w' = logged (notices (length (heap w)) (length (heap w)) (live (listeners w)))
           (rebind delta r w) ∧
    since w w' = notices (length (heap w)) (length (heap w)) (live (listeners w))
                 ++ [Merged delta (length (heap w))].
Proof.
  intros Hs Hres Hobs.
  destruct (setState_observed_exact funs ps w r delta Hs Hres Hobs) as [fuel Hrun].
  eexists fuel, _. split; [exact Hrun|]. split; [done|]. apply since_rebind_logged.
Qed.

Lemma observers_notified_in_order_witness :
  state idle_store = Some 0 ∧
  resolve set_count_1 (deref idle_store 0) = inr {[ "count"%string := VNum 1 ]} ∧
  observed_only idle_funs (listeners idle_store) ∧
  live (listeners idle_store) = [2; 0; 1] ∧
  ∃ fuel w',
    setState idle_funs fuel set_count_1 idle_store = Returned w' ∧
    w' = logged (notices 1 1 [2; 0; 1])
           (rebind {[ "count"%string := VNum 1 ]} 0 idle_store) ∧
    since idle_store w'
    = [Notified 1 1 1; Notified 1 0 1; Notified 1 2 1;
       Merged {[ "count"%string := VNum 1 ]} 1].
Proof.
  assert (H1 : state idle_store = Some 0) by (vm_compute; reflexivity).
  assert (H2 : resolve set_count_1 (deref idle_store 0)
               = inr {[ "count"%string := VNum 1 ]}) by reflexivity.
  assert (H3 : observed_only idle_funs (listeners idle_store)).
  { intros l _. eexists. split; [reflexivity|]. intros arg. constructor. }
  split; [exact H1|]. split; [exact H2|]. split; [exact H3|].
  split; [vm_compute; reflexivity|].
  exact (observers_notified_in_registry_order idle_funs set_count_1 idle_store 0 _ H1 H2 H3).
Defined.

(** X2.  [subscribe] puts a function that is not registered last in
    registry order and leaves the registry as it is when the function is
    already registered; unsubscribing a function and subscribing it again
    moves it behind every function that stayed. *)
Theorem subscribe_orders_registry l w :
  (has l (listeners w) = false →
     live (listeners (subscribe l w)) = live (listeners w) ++ [l]) ∧
  (has l (listeners w) = true → listeners (subscribe l w) = listeners w) ∧
  live (listeners (subscribe l (unsubscribe l w)))
  = filter (λ x, x ≠ l) (live (listeners w)) ++ [l].
Proof.
  split; [apply live_Set_add_new|]. split; [apply live_Set_add_old|].
  simpl. rewrite live_Set_add_new by apply Set_delete_has.
  by rewrite live_Set_delete.
Qed.

Lemma subscribe_orders_registry_witness :
  has 3 (listeners idle_store) = false ∧ has 0 (listeners idle_store) = true ∧
  live (listeners (subscribe 3 idle_store)) = [2; 0; 1; 3] ∧
  listeners (subscribe 0 idle_store) = listeners idle_store ∧
  live (listeners (subscribe 2 (unsubscribe 2 idle_store))) = [0; 1; 2].
Proof.
  assert (H1 : has 3 (listeners idle_store) = false) by (vm_compute; reflexivity).
  assert (H2 : has 0 (listeners idle_store) = true) by (vm_compute; reflexivity).
  split; [exact H1|]. split; [exact H2|].
  split; [exact (proj1 (subscribe_orders_registry 3 idle_store) H1)|].
  split; [exact (proj1 (proj2 (subscribe_orders_registry 0 idle_store)) H2)|].
  exact (proj2 (proj2 (subscribe_orders_registry 2 idle_store))).
Defined.

(** X3.  Calling the function that [subscribe(l)] returned leaves
    registered exactly the other functions that were registered before
    the subscription, in their order: the store is back to its registry
    when [l] was not registered before, and an earlier registration of
    [l] is gone as well when it was. *)
Theorem subscribe_then_unsubscribe l w :
  live (listeners (unsubscribe l (subscribe l w)))
    = filter (λ x, x ≠ l) (live (listeners w)) ∧
  (has l (listeners w) = false →
     live (listeners (unsubscribe l (subscribe l w))) = live (listeners w)) ∧
  heap (unsubscribe l (subscribe l w)) = heap w ∧
  state (unsubscribe l (subscribe l w)) = state w.
Proof.
  assert (Hgen : live (listeners (unsubscribe l (subscribe l w)))
                 = filter (λ x, x ≠ l) (live (listeners w))).
  { simpl. rewrite live_Set_delete. unfold Set_add.
    destruct (has l (listeners w)) eqn:Hh; [done|].
    unfold live. rewrite omap_app, filter_app. simpl.
    rewrite filter_cons_False by (intros H; by apply H).
    by rewrite filter_nil, (right_id_L [] (++)). }
  split; [exact Hgen|]. split; [|done].
  intros Hno. rewrite Hgen. apply filter_absent.
  rewrite elem_of_live. congruence.
Qed.

Lemma subscribe_then_unsubscribe_witness :
  has 3 (listeners idle_store) = false ∧
  live (listeners (unsubscribe 3 (subscribe 3 idle_store))) = live (listeners idle_store) ∧
  live (listeners (unsubscribe 0 (subscribe 0 idle_store))) = [2; 1].
Proof.
  assert (H1 : has 3 (listeners idle_store) = false) by (vm_compute; reflexivity).
  split; [exact H1|].
  split; [exact (proj1 (proj2 (subscribe_then_unsubscribe 3 idle_store)) H1)|].
  rewrite (proj1 (subscribe_then_unsubscribe 0 idle_store)). vm_compute. reflexivity.
Defined.

(** X4.  [setState] does not compare the new state with the old one: when
    the delta only repeats properties the state already has (the empty
    delta included) and the listeners only observe, the call still binds
    [state] to a new object, with the same properties, and still invokes
    every registered listener once. *)
Theorem setState_notifies_without_change funs ps w r delta l :
  wf w → state w = Some r → resolve ps (deref w r) = inr delta →
  delta ⊆ deref w r → observed_only funs (listeners w) →
  has l (listeners w) = true →
  ∃ fuel w' r',
    setState funs fuel ps w = Returned w' ∧
    state w' = Some r' ∧ r' ≠ r ∧ deref w' r' = deref w r ∧
    invocations (length (heap w)) l (since w w') = 1.
Proof.
  intros Hwf Hs Hres Hsub Hobs Hl.
  destruct (setState_observed_exact funs ps w r delta Hs Hres Hobs) as [fuel Hrun].
  eexists fuel, _, (length (heap w)). split; [exact Hrun|]. split; [done|].
  pose proof (wf_state _ Hwf r Hs) as Hr. split; [lia|]. split.
  - unfold deref at 1. simpl. rewrite lookup_app_r by lia.
    rewrite Nat.sub_diag. simpl. by apply map_subseteq_union.
  - eapply setState_invocations; [exact Hwf|exact Hrun|exact Hl|].
    rewrite since_rebind_logged. by apply removal_free_notices.
Qed.

Lemma setState_notifies_without_change_witness :
  wf idle_store ∧ state idle_store = Some 0 ∧
  resolve (Delta ∅) (deref idle_store 0) = inr ∅ ∧
  (∅ : gmap string Value) ⊆ deref idle_store 0 ∧
  observed_only idle_funs (listeners idle_store) ∧
  has 2 (listeners idle_store) = true ∧
  ∃ fuel w' r',
    setState idle_funs fuel (Delta ∅) idle_store = Returned w' ∧
    state w' = Some r' ∧ r' ≠ 0 ∧ deref w' r' = deref idle_store 0 ∧
    invocations (length (heap idle_store)) 2 (since idle_store w') = 1.
Proof.
  assert (H1 : wf idle_store) by (apply wfb_wf; vm_compute; reflexivity).
  assert (H2 : state idle_store = Some 0) by (vm_compute; reflexivity).
  assert (H3 : resolve (Delta ∅) (deref idle_store 0) = inr ∅) by reflexivity.
  assert (H4 : (∅ : gmap string Value) ⊆ deref idle_store 0) by apply map_empty_subseteq.
  assert (H5 : observed_only idle_funs (listeners idle_store)).
  { intros l _. eexists. split; [reflexivity|]. intros arg. constructor. }
  assert (H6 : has 2 (listeners idle_store) = true) by (vm_compute; reflexivity).
  split; [exact H1|]. split; [exact H2|]. split; [exact H3|]. split; [exact H4|].
  split; [exact H5|]. split; [exact H6|].
  exact (setState_notifies_without_change idle_funs (Delta ∅) idle_store 0 ∅ 2
           H1 H2 H3 H4 H5 H6).
Defined.

(** X5.  With listeners that only observe, two successive [setState]
    calls with deltas [d1] and [d2] leave the same state properties as one
    call with the delta [d2 ∪ d1], in which [d2] wins on common keys. *)
Theorem successive_deltas_compose funs w d1 d2 :
  is_Some (state w) → observed_only funs (listeners w) →
  ∃ fuel w2 fuel' w1,
    run funs fuel (setStates [Delta d1; Delta d2]) w = Returned w2 ∧
    run funs fuel' (setStates [Delta (d2 ∪ d1)]) w = Returned w1 ∧
    current w2 = current w1 ∧
    current w2 = d2 ∪ (d1 ∪ current w).
Proof.
  intros Hs Hobs.
  destruct (setStates_observed funs [Delta d1; Delta d2] w _ Hs Hobs eq_refl)
    as (fuel & w2 & Hrun2 & Hcur2).
  destruct (setStates_observed funs [Delta (d2 ∪ d1)] w _ Hs Hobs eq_refl)
    as (fuel' & w1 & Hrun1 & Hcur1).
  exists fuel, w2, fuel', w1. split; [done|]. split; [done|].
  rewrite Hcur2, Hcur1, !shallow_merge_union. split; [|done].
  by rewrite (assoc_L (∪)).
Qed.

Lemma successive_deltas_compose_witness :
  is_Some (state idle_store) ∧ observed_only idle_funs (listeners idle_store) ∧
  ∃ fuel w2 fuel' w1,
    run idle_funs fuel
      (setStates [Delta {[ "count"%string := VNum 1; "name"%string := VStr "a" ]};
                  Delta {[ "count"%string := VNum 2 ]}]) idle_store = Returned w2 ∧
    run idle_funs fuel'
      (setStates [Delta ({[ "count"%string := VNum 2 ]}
                         ∪ {[ "count"%string := VNum 1; "name"%string := VStr "a" ]})])
      idle_store = Returned w1 ∧
    current w2 = current w1 ∧
    current w2 = {[ "count"%string := VNum 2 ]}
                 ∪ ({[ "count"%string := VNum 1; "name"%string := VStr "a" ]}
                    ∪ current idle_store).
Proof.
  assert (H1 : is_Some (state idle_store)) by (by eexists).
  assert (H2 : observed_only idle_funs (listeners idle_store)).
  { intros l _. eexists. split; [reflexivity|]. intros arg. constructor. }
  split; [exact H1|]. split; [exact H2|].
  exact (successive_deltas_compose idle_funs idle_store _ _ H1 H2).
Defined.

(** X6.  In an evaluation during which [destroy] is not called -- whatever
    the listeners do otherwise -- a key of the state never disappears, and
    a key that no applied delta mentions keeps its value. *)
Theorem unmentioned_keys_keep_their_value funs fuel p w w' key :
  wf w → world_of (run funs fuel p w) = Some w' → no_reset (since w w') →
  (is_Some (current w !! key) → is_Some (current w' !! key)) ∧
  ((∀ delta r, Merged delta r ∈ since w w' → delta !! key = None) →
   current w' !! key = current w !! key).
Proof.
  intros Hwf Hrun Hnr.
  assert (Hcur : current w' = replay (current w) (since w w')).
  { eapply steps_replay; [by eapply run_effects|done..]. }
  rewrite Hcur. split; [apply replay_keeps_keys|apply replay_unmentioned].
Qed.

Lemma unmentioned_keys_witness :
  wf reentrant_store ∧
  world_of (run reentrant_funs 13 (SetState set_count_1 Done) reentrant_store)
    = Some (after (run reentrant_funs 13 (SetState set_count_1 Done) reentrant_store)) ∧
  no_reset (since reentrant_store
              (after (run reentrant_funs 13 (SetState set_count_1 Done) reentrant_store))) ∧
  is_Some (current reentrant_store !! "count"%string) ∧
  is_Some (current (after (run reentrant_funs 13 (SetState set_count_1 Done)
                             reentrant_store)) !! "count"%string).
Proof.
  assert (H1 : wf reentrant_store) by (apply wfb_wf; vm_compute; reflexivity).
  assert (H2 : world_of (run reentrant_funs 13 (SetState set_count_1 Done) reentrant_store)
    = Some (after (run reentrant_funs 13 (SetState set_count_1 Done) reentrant_store)))
    by (vm_compute; reflexivity).
  assert (H3 : no_reset (since reentrant_store
              (after (run reentrant_funs 13 (SetState set_count_1 Done) reentrant_store)))).
  { intros r. apply (bool_decide_unpack _). vm_compute. exact I. }
  assert (H4 : is_Some (current reentrant_store !! "count"%string)) by (by eexists).
  split; [exact H1|]. split; [exact H2|]. split; [exact H3|]. split; [exact H4|].
  exact (proj1 (unmentioned_keys_keep_their_value reentrant_funs 13 _ reentrant_store _
                  "count"%string H1 H2 H3) H4).
Defined.

(** X7.  An exception thrown by a listener does not undo the update: when
    the partial resolves and [setState] nevertheless throws, the merged
    object has been allocated and [state] has been rebound, to an object
    that did not exist before the call. *)
Theorem listener_exception_keeps_update funs fuel ps w w' r delta e :
  state w = Some r → resolve ps (deref w r) = inr delta →
  setState funs fuel ps w = Threw e w' →
  deref w' (length (heap w)) = delta ∪ deref w r ∧
  Merged delta (length (heap w)) ∈ since w w' ∧
  ∃ r', state w' = Some r' ∧ heap w !! r' = None.
Proof.
  intros Hs Hres Hrun. destruct fuel as [|n]; [done|]. simpl in Hrun.
  destruct (update_cases ps w)
    as [[Hn _]|[(r' & e' & Hs' & Hr' & _)|(r' & d & Hs' & Hr' & Hu)]];
    [congruence|congruence|].
  assert (r' = r) as -> by congruence. assert (d = delta) as -> by congruence.
  rewrite Hu in Hrun. set (w1 := rebind delta r w) in *.
  assert (H0 : steps anything w w1) by (by eapply rtc_once, atom_rebind).
  assert (H1 : steps anything w1 w').
  { eapply forEach_effects. by rewrite Hrun. }
  split; [|split].
  - rewrite (steps_deref _ _ _ _ H1); simpl.
    + unfold deref at 1. simpl. rewrite lookup_app_r by lia. by rewrite Nat.sub_diag.
    + rewrite length_app. simpl. lia.
  - rewrite (since_trans _ _ _ _ H0 H1), (since_intro w w1 [Merged delta (length (heap w))])
      by done.
    apply elem_of_app. right. by left.
  - destruct (steps_state _ _ _ H1) as [Hsame|(r2 & Hr2 & Hge)].
    + exists (length (heap w)). rewrite Hsame. split; [done|]. by apply lookup_ge_None_2.
    + exists r2. split; [done|]. simpl in Hge. rewrite length_app in Hge. simpl in Hge.
      apply lookup_ge_None_2. lia.
Qed.

Lemma listener_exception_keeps_update_witness :
  state throwing_store = Some 0 ∧
  resolve set_count_1 (deref throwing_store 0) = inr {[ "count"%string := VNum 1 ]} ∧
  setState throwing_funs 5 set_count_1 throwing_store
    = Threw (Thrown (VStr "boom")) (logged [Notified 1 1 1; Notified 1 0 1]
        (rebind {[ "count"%string := VNum 1 ]} 0 throwing_store)) ∧
  deref (logged [Notified 1 1 1; Notified 1 0 1]
           (rebind {[ "count"%string := VNum 1 ]} 0 throwing_store))
        (length (heap throwing_store))
    = {[ "count"%string := VNum 1 ]} ∪ deref throwing_store 0.
Proof.
  assert (H1 : state throwing_store = Some 0) by (vm_compute; reflexivity).
  assert (H2 : resolve set_count_1 (deref throwing_store 0)
               = inr {[ "count"%string := VNum 1 ]}) by reflexivity.
  assert (H3 : setState throwing_funs 5 set_count_1 throwing_store
    = Threw (Thrown (VStr "boom")) (logged [Notified 1 1 1; Notified 1 0 1]
        (rebind {[ "count"%string := VNum 1 ]} 0 throwing_store)))
    by (vm_compute; reflexivity).
  split; [exact H1|]. split; [exact H2|]. split; [exact H3|].
  exact (proj1 (listener_exception_keeps_update throwing_funs 5 set_count_1
                  throwing_store _ 0 _ _ H1 H2 H3)).
Defined.





(** * Further properties of the hook *)

(** X10.  Mounting: on an initialised store the first render returns the
    selector applied to the current state (the state object itself when
    the component passes no selector), and after its commit the listener
    is registered, the refs hold that selector and that slice, the reducer
    holds the slice, and nothing has been dispatched. *)
Theorem mount_wires_listener sels h l selector deps w r v wv :
  state w = Some r →
  select (selector_of sels (stateSelector selector)) r w = inr (v, wv) →
  (selector = None → v = VRef r) ∧
  ∃ fb w', renderAndCommit sels h l selector deps None w = Some (v, fb, w') ∧
    in_sync sels h fb w' v ∧ reducerCell fb = v ∧ reduced fb = 0 ∧
    dispatched_of h w' = [] ∧
    listeners w' = Set_add l (listeners w) ∧ state w' = Some r.
Proof.
  intros Hs Hsel. split.
  { intros ->. simpl in Hsel. unfold select in Hsel. simpl in Hsel. by simplify_eq. }
  destruct (select_world _ _ _ _ _ Hsel) as (Hhooks & Hstate & Hls & _).
  unfold renderAndCommit, useStore. rewrite Hs. simpl. rewrite Hsel. simpl.
  eexists _, _. split; [reflexivity|]. simpl. repeat split.
  - eexists. simpl. rewrite lookup_insert_eq. repeat split; try done. simpl. lia.
  - unfold dispatched_of. simpl. by rewrite !lookup_insert_eq.
  - by rewrite Hls.
  - by rewrite Hstate.
Qed.

Lemma mount_wires_listener_witness :
  state board_store = Some 0 ∧
  select (selector_of board_sels (stateSelector (Some 0))) 0 board_store
    = inr (VNum 0, board_store) ∧
  ∃ fb w', renderAndCommit board_sels 0 0 (Some 0) None None board_store
           = Some (VNum 0, fb, w') ∧
    in_sync board_sels 0 fb w' (VNum 0) ∧ reducerCell fb = VNum 0 ∧ reduced fb = 0 ∧
    dispatched_of 0 w' = [] ∧
    listeners w' = Set_add 0 (listeners board_store) ∧ state w' = Some 0.
Proof.
  assert (H1 : state board_store = Some 0) by (vm_compute; reflexivity).
  assert (H2 : select (selector_of board_sels (stateSelector (Some 0))) 0 board_store
               = inr (VNum 0, board_store)) by (vm_compute; reflexivity).
  split; [exact H1|]. split; [exact H2|].
  exact (proj2 (mount_wires_listener board_sels 0 0 (Some 0) None board_store 0 (VNum 0)
                  board_store H1 H2)).
Defined.

(** X11.  A render that finds the selector it used last time, in
    [selectStateRef.current], does not read the store: it returns the slice
    most recently handed to [dispatch] since the previous render, or, when
    none was, the state the reducer already held; the world is unchanged. *)
Theorem render_returns_newest_dispatched sels h selector deps fb w r hk new old :
  state w = Some r → hooks w !! h = Some hk →
  (useCallback (stateSelector selector) deps (Some (callbackCell fb))).1
    = selectStateRefIs fb →
  dispatched hk = new ++ old → length old = reduced fb →
  ∃ fb', useStore sels h selector deps (Some fb) w
         = inr (default (reducerCell fb) (head new), fb', w) ∧
         reducerCell fb' = default (reducerCell fb) (head new) ∧
         reduced fb' = length (dispatched hk).
Proof.
  intros Hs Hh Hmemo Hd Hlen. unfold useStore. rewrite Hs, Hh. simpl.
  rewrite decide_True by exact Hmemo.
  rewrite (pendingSlices_new fb hk new old Hd Hlen), foldl_reducer.
  eexists. split; [reflexivity|]. by split.
Qed.

Lemma render_returns_newest_witness :
  state board_counted = Some 2 ∧
  hooks board_counted !! 0 = Some (mkHook (board_sels 0) (VNum 0) [VNum 2; VNum 1]) ∧
  (useCallback (stateSelector (Some 0)) None (Some (callbackCell board_fiber))).1
    = selectStateRefIs board_fiber ∧
  [VNum 2; VNum 1] = [VNum 2; VNum 1] ++ [] ∧
  length (@nil Value) = reduced board_fiber ∧
  ∃ fb', useStore board_sels 0 (Some 0) None (Some board_fiber) board_counted
         = inr (VNum 2, fb', board_counted) ∧
         reducerCell fb' = VNum 2 ∧ reduced fb' = 2.
Proof.
  assert (H1 : state board_counted = Some 2) by (vm_compute; reflexivity).
  assert (H2 : hooks board_counted !! 0
               = Some (mkHook (board_sels 0) (VNum 0) [VNum 2; VNum 1]))
    by (vm_compute; reflexivity).
  assert (H3 : (useCallback (stateSelector (Some 0)) None
                  (Some (callbackCell board_fiber))).1 = selectStateRefIs board_fiber)
    by reflexivity.
  split; [exact H1|]. split; [exact H2|]. split; [exact H3|].
  split; [reflexivity|]. split; [reflexivity|].
  exact (render_returns_newest_dispatched board_sels 0 (Some 0) None board_fiber
           board_counted 2 _ [VNum 2; VNum 1] [] H1 H2 H3 eq_refl eq_refl).
Defined.

(** X12.  While the dependency list the component passes is entry by
    entry reference-equal to the one of the memoized selector, the selector
    function it passes is ignored: a render and its commit give the same
    slice, cells and world whichever function is passed, and the memoized
    selector stays in the cells. *)
Theorem unchanged_dependencies_keep_selector sels h l selector selector' deps prev
    prevDeps fb w :
  callbackCell fb = (prev, Some prevDeps) →
  areHookInputsEqual deps prevDeps = true →
  renderAndCommit sels h l selector (Some deps) (Some fb) w
  = renderAndCommit sels h l selector' (Some deps) (Some fb) w ∧
  ∀ slice fb' w',
    renderAndCommit sels h l selector (Some deps) (Some fb) w = Some (slice, fb', w') →
    callbackCell fb' = (prev, Some prevDeps).
Proof.
  intros Hcell Heq.
  assert (Hmemo : ∀ s, useCallback (stateSelector s) (Some deps) (Some (callbackCell fb))
                       = (prev, Some prevDeps)).
  { intros s. unfold useCallback. by rewrite Hcell, Heq. }
  unfold renderAndCommit, useStore. cbn [fmap option_fmap option_map].
  rewrite !Hmemo. split; [done|].
  intros slice fb' w'. simpl.
  destruct (state w) as [r|]; [|done]. destruct (hooks w !! h) as [hk|]; [|done].
  destruct (decide (prev = selectStateRefIs fb)).
  - intros H. by simplify_eq.
  - destruct (select (selector_of sels prev) r w) as [e|[v w1]]; [done|].
    intros H. by simplify_eq.
Qed.

Lemma unchanged_dependencies_witness :
  callbackCell board_fiber_keyed = (UserSelector 0, Some [VNum 7]) ∧
  areHookInputsEqual [VNum 7] [VNum 7] = true ∧
  renderAndCommit board_sels 0 0 (Some 0) (Some [VNum 7]) (Some board_fiber_keyed)
    board_mounted
  = renderAndCommit board_sels 0 0 (Some 1) (Some [VNum 7]) (Some board_fiber_keyed)
      board_mounted.
Proof.
  split; [reflexivity|]. split; [reflexivity|].
  exact (proj1 (unchanged_dependencies_keep_selector board_sels 0 0 (Some 0) (Some 1)
                  [VNum 7] (UserSelector 0) [VNum 7] board_fiber_keyed board_mounted
                  eq_refl eq_refl)).
Defined.

(** X13.  A later render and its commit keep the refs in step: whether
    or not the first layout effect runs again, after the commit the refs
    hold the selector the render used and the slice it returned.  The
    render and the commit leave the store alone: the state, the registry,
    the event trace and the queue of dispatched slices are as before. *)
Theorem commit_syncs_listener_cells sels h l selector deps fb0 w slice0 slice fb w' :
  in_sync sels h fb0 w slice0 →
  renderAndCommit sels h l selector deps (Some fb0) w = Some (slice, fb, w') →
  in_sync sels h fb w' slice ∧
  state w' = state w ∧ listeners w' = listeners w ∧ trace w' = trace w ∧
  dispatched_of h w' = dispatched_of h w.
Proof.
  intros (hk & Hh & Hsel & Hslice & Href & Hdeps & Hred).
  unfold renderAndCommit, useStore. cbn [fmap option_fmap option_map].
  set (cell := useCallback (stateSelector selector) deps (Some (callbackCell fb0))).
  destruct (state w) as [r|] eqn:Hs; [|done]. rewrite Hh.
  set (reduced_slice := foldl reducer (reducerCell fb0) (pendingSlices fb0 hk)).
  assert (Hsync : ∀ v w1,
    hooks w1 = hooks w →
    let out := layoutEffects sels h l v
                 (mkFiber cell (selectStateRefIs fb0) reduced_slice
                    (length (dispatched hk)) (effectDeps fb0)) w1 in
    in_sync sels h out.1 out.2 v ∧ state out.2 = state w1 ∧
    listeners out.2 = listeners w1 ∧ trace out.2 = trace w1 ∧
    dispatched_of h out.2 = dispatched_of h w1).
  { intros v w1 Hhooks. unfold layoutEffects. simpl. rewrite Hdeps. simpl.
    destruct (bool_decide ((callbackCell fb0).1 = cell.1)) eqn:Hb1;
      [destruct (bool_decide (slice0 = v)) eqn:Hb2|]; simpl.
    - apply bool_decide_eq_true in Hb1, Hb2. subst v.
      repeat split; try done. exists hk. rewrite Hhooks.
      simpl. rewrite <- Hb1. repeat split; done.
    - repeat split; try done; [|apply dispatched_of_commitRefs].
      eexists. rewrite commitRefs_lookup. simpl. repeat split; try done.
      rewrite Hhooks, Hh. done.
    - repeat split; try done; [|apply dispatched_of_commitRefs].
      eexists. rewrite commitRefs_lookup. simpl. repeat split; try done.
      rewrite Hhooks, Hh. done. }
  destruct (decide (cell.1 = selectStateRefIs fb0)) as [Hsame|Hchanged].
  - specialize (Hsync reduced_slice w eq_refl).
    destruct (layoutEffects _ _ _ _ _ _) as [fb' w2].
    intros H. simplify_eq. simpl in Hsync.
    destruct Hsync as (H1 & H2 & H3 & H4 & H5). repeat split; congruence.
  - destruct (select (selector_of sels cell.1) r w) as [e|[v w1]] eqn:Hselect; [done|].
    destruct (select_world _ _ _ _ _ Hselect) as (Hhooks & Hstate & Hls & Htr & _).
    specialize (Hsync v w1 Hhooks).
    destruct (layoutEffects _ _ _ _ _ _) as [fb' w2].
    intros H. simplify_eq. simpl in Hsync.
    destruct Hsync as (H1 & H2 & H3 & H4 & H5).
    repeat split; try congruence.
    rewrite H5. unfold dispatched_of. by rewrite Hhooks.
Qed.

Lemma commit_syncs_witness :
  in_sync board_sels 0 board_fiber board_counted (VNum 0) ∧
  renderAndCommit board_sels 0 0 (Some 0) None (Some board_fiber) board_counted
    = Some (VNum 2, board_fiber_counted, board_committed) ∧
  in_sync board_sels 0 board_fiber_counted board_committed (VNum 2) ∧
  state board_committed = state board_counted ∧
  listeners board_committed = listeners board_counted ∧
  trace board_committed = trace board_counted ∧
  dispatched_of 0 board_committed = dispatched_of 0 board_counted.
Proof.
  assert (H1 : in_sync board_sels 0 board_fiber board_counted (VNum 0)).
  { apply (board_in_sync _ [VNum 2; VNum 1]). vm_compute. reflexivity. }
  assert (H2 : renderAndCommit board_sels 0 0 (Some 0) None (Some board_fiber)
                 board_counted = Some (VNum 2, board_fiber_counted, board_committed))
    by (vm_compute; reflexivity).
  split; [exact H1|]. split; [exact H2|].
  exact (commit_syncs_listener_cells board_sels 0 0 (Some 0) None board_fiber
           board_counted (VNum 0) (VNum 2) board_fiber_counted board_committed H1 H2).
Defined.

(** X14.  Nothing the store runs ([setState] with its notification pass,
    or any callback program) changes the selector or the slice in the refs
    of a hook, or removes a dispatched slice: the queue of the hook only
    grows in front.  So cells that are in step with a commit stay so. *)
Theorem store_keeps_hook_cells funs fuel p ps w w' h hk :
  world_of (run funs fuel p w) = Some w' ∨ world_of (setState funs fuel ps w) = Some w' →
  hooks w !! h = Some hk →
  (∃ new, hooks w' !! h
          = Some (mkHook (selectStateRef hk) (stateSliceRef hk) (new ++ dispatched hk))) ∧
  ∀ sels fb slice, in_sync sels h fb w slice → in_sync sels h fb w' slice.
Proof.
  intros Hrun Hh.
  assert (Hkept : cells_kept w w').
  { destruct Hrun as [H|H]; by apply (eval_cells funs fuel) in H. }
  split; [by apply Hkept|].
  intros sels fb slice (hk' & Hh' & Hsel & Hslice & Href & Hdeps & Hred).
  destruct (Hkept h hk' Hh') as [new Hnew].
  eexists. split; [exact Hnew|]. simpl. repeat split; try done.
  rewrite length_app. lia.
Qed.

Lemma store_keeps_hook_cells_witness :
  (world_of (run board_funs 8 (SetState (set_count 1) (SetState (set_count 2) Done))
               board_mounted) = Some board_counted
   ∨ world_of (setState board_funs 8 (set_count 1) board_mounted) = Some board_counted) ∧
  hooks board_mounted !! 0 = Some (mkHook (board_sels 0) (VNum 0) []) ∧
  ∃ new, hooks board_counted !! 0 = Some (mkHook (board_sels 0) (VNum 0) (new ++ [])).
Proof.
  assert (H1 : world_of (run board_funs 8
                  (SetState (set_count 1) (SetState (set_count 2) Done)) board_mounted)
               = Some board_counted) by (vm_compute; reflexivity).
  assert (H2 : hooks board_mounted !! 0 = Some (mkHook (board_sels 0) (VNum 0) []))
    by (vm_compute; reflexivity).
  split; [left; exact H1|]. split; [exact H2|].
  exact (proj1 (store_keeps_hook_cells board_funs 8 _ (set_count 1) board_mounted
                  board_counted 0 _ (or_introl H1) H2)).
Defined.

(** X15.  A mounted component follows the store.  The refs are in step
    with the last commit, the listener of the hook is registered and the
    other registered functions only observe.  If [setState] produces a
    state on which the committed selector gives a slice that is not
    shallow-equal to the committed one, the call returns, and the next
    render with the same selector returns that new slice. *)
Theorem mounted_component_follows_store funs sels h l selector deps fb w slice0 r ps
    delta j v wv :
  in_sync sels h fb w slice0 →
  (useCallback (stateSelector selector) deps (Some (callbackCell fb))).1
    = (callbackCell fb).1 →
  funs l = HookListener h → listeners w !! j = Some (Some l) →
  observers_except funs j (listeners w) →
  state w = Some r → resolve ps (deref w r) = inr delta →
  select (selector_of sels (callbackCell fb).1) (length (heap w)) (rebind delta r w)
    = inr (v, wv) →
  shallowEqual (heap wv) slice0 v = false →
  ∃ fuel w' fb',
    setState funs fuel ps w = Returned w' ∧
    dispatched_of h w' = v :: dispatched_of h w ∧
    useStore sels h selector deps (Some fb) w' = inr (v, fb', w').
Proof.
  intros (hk & Hh & Hsel & Hslice & Href & Hdeps & Hred) Hmemo Hf Hj Hobs Hs Hres
    Hselect Hne.
  rewrite <- Hsel in Hselect. rewrite <- Hslice in Hne.
  destruct (setState_hook_cells funs ps w r delta j l h hk v wv)
    as (fuel & w' & Hrun & Hs' & _ & _ & Hhooks); try done.
  rewrite Hne in Hhooks.
  assert (Hh' : hooks w' !! h
                = Some (mkHook (selectStateRef hk) (stateSliceRef hk) (v :: dispatched hk))).
  { by rewrite Hhooks, lookup_insert_eq. }
  destruct (useStore_pushed sels h selector deps fb w' _ _ v (dispatched hk) Hs' Hh')
    as [fb' Hrender]; try done; [congruence|].
  exists fuel, w', fb'. split; [exact Hrun|]. split; [|exact Hrender].
  unfold dispatched_of. by rewrite Hh', Hh.
Qed.

Lemma mounted_component_follows_witness :
  in_sync board_sels 0 board_fiber board_mounted (VNum 0) ∧
  (useCallback (stateSelector (Some 0)) None (Some (callbackCell board_fiber))).1
    = (callbackCell board_fiber).1 ∧
  board_funs 0 = HookListener 0 ∧ listeners board_mounted !! 1 = Some (Some 0) ∧
  observers_except board_funs 1 (listeners board_mounted) ∧
  state board_mounted = Some 0 ∧
  resolve (set_count 1) (deref board_mounted 0) = inr {[ "count"%string := VNum 1 ]} ∧
  select (selector_of board_sels (callbackCell board_fiber).1)
    (length (heap board_mounted))
    (rebind {[ "count"%string := VNum 1 ]} 0 board_mounted)
    = inr (VNum 1, rebind {[ "count"%string := VNum 1 ]} 0 board_mounted) ∧
  shallowEqual (heap (rebind {[ "count"%string := VNum 1 ]} 0 board_mounted))
    (VNum 0) (VNum 1) = false ∧
  ∃ fuel w' fb',
    setState board_funs fuel (set_count 1) board_mounted = Returned w' ∧
    dispatched_of 0 w' = VNum 1 :: dispatched_of 0 board_mounted ∧
    useStore board_sels 0 (Some 0) None (Some board_fiber) w' = inr (VNum 1, fb', w').
Proof.
  assert (H1 : in_sync board_sels 0 board_fiber board_mounted (VNum 0)).
  { apply (board_in_sync _ []). vm_compute. reflexivity. }
  assert (H2 : listeners board_mounted !! 1 = Some (Some 0)) by (vm_compute; reflexivity).
  assert (H3 : observers_except board_funs 1 (listeners board_mounted)).
  { apply board_observers. vm_compute. reflexivity. }
  assert (H4 : state board_mounted = Some 0) by (vm_compute; reflexivity).
  assert (H5 : select (selector_of board_sels (callbackCell board_fiber).1)
                 (length (heap board_mounted))
                 (rebind {[ "count"%string := VNum 1 ]} 0 board_mounted)
               = inr (VNum 1, rebind {[ "count"%string := VNum 1 ]} 0 board_mounted))
    by (vm_compute; reflexivity).
  assert (H6 : shallowEqual (heap (rebind {[ "count"%string := VNum 1 ]} 0 board_mounted))
                 (VNum 0) (VNum 1) = false) by (vm_compute; reflexivity).
  split; [exact H1|]. split; [reflexivity|]. split; [reflexivity|]. split; [exact H2|].
  split; [exact H3|]. split; [exact H4|]. split; [reflexivity|]. split; [exact H5|].
  split; [exact H6|].
  exact (mounted_component_follows_store board_funs board_sels 0 0 (Some 0) None
           board_fiber board_mounted (VNum 0) 0 (set_count 1) _ 1 (VNum 1) _
           H1 eq_refl eq_refl H2 H3 H4 eq_refl H5 H6).
Defined.

(** X16.  When a render receives a changed selector it returns that
    selector applied to the current state, but the reducer keeps the slice
    of the old selector.  So if nothing is dispatched before the component
    renders again with the same arguments, that render returns the slice
    of the old selector once more. *)
Theorem stale_slice_after_selector_change sels h l selector deps fb0 w slice0 slice1
    fb1 w1 :
  in_sync sels h fb0 w slice0 →
  reducerCell fb0 = slice0 →
  reduced fb0 = length (dispatched_of h w) →
  (useCallback (stateSelector selector) deps (Some (callbackCell fb0))).1
    ≠ (callbackCell fb0).1 →
  renderAndCommit sels h l selector deps (Some fb0) w = Some (slice1, fb1, w1) →
  (∃ r wv, state w = Some r ∧
     select (selector_of sels (stateSelector selector)) r w = inr (slice1, wv)) ∧
  ∃ fb2 w2, renderAndCommit sels h l selector deps (Some fb1) w1 = Some (slice0, fb2, w2).
Proof.
  intros (hk & Hh & Hsel & Hslice & Href & Hdeps & Hred) Hcell Hnone Hchanged.
  assert (Hd : dispatched_of h w = dispatched hk).
  { unfold dispatched_of. by rewrite Hh. }
  rewrite Hd in Hnone.
  pose proof (useCallback_changed _ _ _ Hchanged) as Hmemo.
  pose proof (useCallback_again (stateSelector selector) deps
                (Some (callbackCell fb0))) as Hagain.
  rewrite Hmemo in Hagain.
  assert (Hne : stateSelector selector ≠ (callbackCell fb0).1).
  { rewrite Hmemo in Hchanged. exact Hchanged. }
  unfold renderAndCommit at 1. unfold useStore. cbn [fmap option_fmap option_map].
  rewrite Hmemo. cbn [fst].
  destruct (state w) as [r|] eqn:Hs; [|done]. rewrite Hh.
  rewrite decide_False by (by rewrite Href).
  destruct (select (selector_of sels (stateSelector selector)) r w) as [e|[v wv]]
    eqn:Hselect; [done|].
  destruct (select_world _ _ _ _ _ Hselect) as (Hhooks & Hstate & _).
  rewrite (pendingSlices_none fb0 hk Hnone). cbn [foldl].
  unfold layoutEffects. cbn [callbackCell effectDeps fst selectStateRefIs reducerCell reduced].
  rewrite Hdeps.
  rewrite (bool_decide_eq_false_2 ((callbackCell fb0).1 = stateSelector selector))
    by congruence.
  cbn [andb negb]. intros H. simplify_eq. split; [by eexists _, _|].
  unfold renderAndCommit, useStore. cbn [fmap option_fmap option_map callbackCell].
  rewrite Hagain. cbn [fst].
  change (state (commitRefs h (selector_of sels (stateSelector selector)) slice1 wv))
    with (state wv).
  rewrite Hstate, Hs, commitRefs_lookup, Hhooks, Hh. cbn [default fmap option_fmap option_map]. cbn [selectStateRefIs].
  rewrite decide_True by done.
  rewrite pendingSlices_none by done. cbn [foldl].
  cbn [reducerCell]. rewrite Hcell.
  destruct (layoutEffects _ _ _ _ _ _) as [fb2 w2]. by eexists _, _.
Qed.

Lemma stale_slice_witness :
  in_sync board_sels 0 board_fiber board_mounted (VNum 0) ∧
  reducerCell board_fiber = VNum 0 ∧
  reduced board_fiber = length (dispatched_of 0 board_mounted) ∧
  (useCallback (stateSelector (Some 1)) None (Some (callbackCell board_fiber))).1
    ≠ (callbackCell board_fiber).1 ∧
  renderAndCommit board_sels 0 0 (Some 1) None (Some board_fiber) board_mounted
    = Some (VStr "a", board_fiber_named, board_named) ∧
  ∃ fb2 w2, renderAndCommit board_sels 0 0 (Some 1) None (Some board_fiber_named)
              board_named = Some (VNum 0, fb2, w2).
Proof.
  assert (H1 : in_sync board_sels 0 board_fiber board_mounted (VNum 0)).
  { apply (board_in_sync _ []). vm_compute. reflexivity. }
  assert (H2 : reduced board_fiber = length (dispatched_of 0 board_mounted))
    by (vm_compute; reflexivity).
  assert (H3 : (useCallback (stateSelector (Some 1)) None
                  (Some (callbackCell board_fiber))).1 ≠ (callbackCell board_fiber).1)
    by (simpl; discriminate).
  assert (H4 : renderAndCommit board_sels 0 0 (Some 1) None (Some board_fiber)
                 board_mounted = Some (VStr "a", board_fiber_named, board_named))
    by (vm_compute; reflexivity).
  split; [exact H1|]. split; [reflexivity|]. split; [exact H2|]. split; [exact H3|].
  split; [exact H4|].
  exact (proj2 (stale_slice_after_selector_change board_sels 0 0 (Some 1) None
                  board_fiber board_mounted (VNum 0) (VStr "a") board_fiber_named
                  board_named H1 eq_refl H2 H3 H4)).
Defined.

(** X17.  The listener compares with the slice of the last commit, not
    with the slice it dispatched last.  So when one [setState] changes the
    selected slice and a second one, before the component renders again,
    produces a slice shallow-equal to the committed one, the second
    dispatches nothing, and the next render returns the slice of the
    first update although the state no longer selects it. *)
Theorem reverted_update_leaves_stale_slice funs sels h l selector deps fb w slice0 r
    ps1 delta1 j v1 wv1 fuel1 w1 r1 ps2 delta2 v2 wv2 :
  in_sync sels h fb w slice0 →
  (useCallback (stateSelector selector) deps (Some (callbackCell fb))).1
    = (callbackCell fb).1 →
  funs l = HookListener h → listeners w !! j = Some (Some l) →
  observers_except funs j (listeners w) →
  state w = Some r → resolve ps1 (deref w r) = inr delta1 →
  select (selector_of sels (callbackCell fb).1) (length (heap w)) (rebind delta1 r w)
    = inr (v1, wv1) →
  shallowEqual (heap wv1) slice0 v1 = false →
  setState funs fuel1 ps1 w = Returned w1 →
  state w1 = Some r1 → resolve ps2 (deref w1 r1) = inr delta2 →
  select (selector_of sels (callbackCell fb).1) (length (heap w1)) (rebind delta2 r1 w1)
    = inr (v2, wv2) →
  shallowEqual (heap wv2) slice0 v2 = true →
  ∃ fuel2 w2 fb',
    setState funs fuel2 ps2 w1 = Returned w2 ∧
    dispatched_of h w2 = v1 :: dispatched_of h w ∧
    useStore sels h selector deps (Some fb) w2 = inr (v1, fb', w2).
Proof.
  intros (hk & Hh & Hsel & Hslice & Href & Hdeps & Hred) Hmemo Hf Hj Hobs Hs Hres1
    Hselect1 Hne Hrun1 Hs1 Hres2 Hselect2 Heq.
  rewrite <- Hsel in Hselect1, Hselect2. rewrite <- Hslice in Hne, Heq.
  destruct (setState_hook_cells funs ps1 w r delta1 j l h hk v1 wv1)
    as (fuel & w1' & Hrun & _ & Hls1 & _ & Hhooks1); try done.
  assert (w1' = w1) as ->.
  { pose proof (setState_more funs _ (fuel `max` fuel1) _ _ _ Hrun) as Ha.
    pose proof (setState_more funs _ (fuel `max` fuel1) _ _ _ Hrun1) as Hb.
    rewrite Ha in Hb by lia. specialize (Hb ltac:(lia)). by simplify_eq. }
  rewrite Hne in Hhooks1.
  set (hk1 := mkHook (selectStateRef hk) (stateSliceRef hk) (v1 :: dispatched hk)) in *.
  assert (Hh1 : hooks w1 !! h = Some hk1) by (by rewrite Hhooks1, lookup_insert_eq).
  destruct (setState_hook_cells funs ps2 w1 r1 delta2 j l h hk1 v2 wv2)
    as (fuel2 & w2 & Hrun2 & Hs2 & _ & _ & Hhooks2); try done.
  { by rewrite Hls1. }
  { by rewrite Hls1. }
  simpl in Hhooks2. rewrite Heq in Hhooks2.
  assert (Hh2 : hooks w2 !! h = Some hk1) by (by rewrite Hhooks2).
  destruct (useStore_pushed sels h selector deps fb w2 _ _ v1 (dispatched hk) Hs2 Hh2)
    as [fb' Hrender]; try done; [congruence|].
  exists fuel2, w2, fb'. split; [exact Hrun2|]. split; [|exact Hrender].
  unfold dispatched_of. by rewrite Hh2, Hh.
Qed.

Lemma reverted_update_witness :
  in_sync board_sels 0 board_fiber board_mounted (VNum 0) ∧
  (useCallback (stateSelector (Some 0)) None (Some (callbackCell board_fiber))).1
    = (callbackCell board_fiber).1 ∧
  board_funs 0 = HookListener 0 ∧ listeners board_mounted !! 1 = Some (Some 0) ∧
  observers_except board_funs 1 (listeners board_mounted) ∧
  state board_mounted = Some 0 ∧
  resolve (set_count 1) (deref board_mounted 0) = inr {[ "count"%string := VNum 1 ]} ∧
  select (selector_of board_sels (callbackCell board_fiber).1)
    (length (heap board_mounted))
    (rebind {[ "count"%string := VNum 1 ]} 0 board_mounted)
    = inr (VNum 1, rebind {[ "count"%string := VNum 1 ]} 0 board_mounted) ∧
  shallowEqual (heap (rebind {[ "count"%string := VNum 1 ]} 0 board_mounted))
    (VNum 0) (VNum 1) = false ∧
  setState board_funs 8 (set_count 1) board_mounted = Returned board_bumped ∧
  state board_bumped = Some 1 ∧
  resolve (set_count 0) (deref board_bumped 1) = inr {[ "count"%string := VNum 0 ]} ∧
  select (selector_of board_sels (callbackCell board_fiber).1)
    (length (heap board_bumped))
    (rebind {[ "count"%string := VNum 0 ]} 1 board_bumped)
    = inr (VNum 0, rebind {[ "count"%string := VNum 0 ]} 1 board_bumped) ∧
  shallowEqual (heap (rebind {[ "count"%string := VNum 0 ]} 1 board_bumped))
    (VNum 0) (VNum 0) = true ∧
  ∃ fuel2 w2 fb',
    setState board_funs fuel2 (set_count 0) board_bumped = Returned w2 ∧
    dispatched_of 0 w2 = VNum 1 :: dispatched_of 0 board_mounted ∧
    useStore board_sels 0 (Some 0) None (Some board_fiber) w2 = inr (VNum 1, fb', w2).
Proof.
  assert (H1 : in_sync board_sels 0 board_fiber board_mounted (VNum 0)).
  { apply (board_in_sync _ []). vm_compute. reflexivity. }
  assert (H2 : listeners board_mounted !! 1 = Some (Some 0)) by (vm_compute; reflexivity).
  assert (H3 : observers_except board_funs 1 (listeners board_mounted)).
  { apply board_observers. vm_compute. reflexivity. }
  assert (H4 : state board_mounted = Some 0) by (vm_compute; reflexivity).
  assert (H5 : select (selector_of board_sels (callbackCell board_fiber).1)
                 (length (heap board_mounted))
                 (rebind {[ "count"%string := VNum 1 ]} 0 board_mounted)
               = inr (VNum 1, rebind {[ "count"%string := VNum 1 ]} 0 board_mounted))
    by (vm_compute; reflexivity).
  assert (H6 : shallowEqual (heap (rebind {[ "count"%string := VNum 1 ]} 0 board_mounted))
                 (VNum 0) (VNum 1) = false) by (vm_compute; reflexivity).
  assert (H7 : setState board_funs 8 (set_count 1) board_mounted = Returned board_bumped)
    by (vm_compute; reflexivity).
  assert (H8 : state board_bumped = Some 1) by (vm_compute; reflexivity).
  assert (H9 : select (selector_of board_sels (callbackCell board_fiber).1)
                 (length (heap board_bumped))
                 (rebind {[ "count"%string := VNum 0 ]} 1 board_bumped)
               = inr (VNum 0, rebind {[ "count"%string := VNum 0 ]} 1 board_bumped))
    by (vm_compute; reflexivity).
  assert (H10 : shallowEqual (heap (rebind {[ "count"%string := VNum 0 ]} 1 board_bumped))
                  (VNum 0) (VNum 0) = true) by (vm_compute; reflexivity).
  split; [exact H1|]. split; [reflexivity|]. split; [reflexivity|]. split; [exact H2|].
  split; [exact H3|]. split; [exact H4|]. split; [reflexivity|]. split; [exact H5|].
  split; [exact H6|]. split; [exact H7|]. split; [exact H8|]. split; [reflexivity|].
  split; [exact H9|]. split; [exact H10|].
  exact (reverted_update_leaves_stale_slice board_funs board_sels 0 0 (Some 0) None
           board_fiber board_mounted (VNum 0) 0 (set_count 1) _ 1 (VNum 1) _ 8
           board_bumped 1 (set_count 0) _ (VNum 0) _
           H1 eq_refl eq_refl H2 H3 H4 eq_refl H5 H6 H7 H8 eq_refl H9 H10).
Defined.
